(** * rmc: the JSON geometry exporter and the command-line dumpers

    A shallow embedding of [src/rmc/exporters/json.py] and of the dumpers of
    [src/rmc/cli.py].

    Conventions of the embedding.
    - Screen coordinates (point positions, text positions, anchor offsets,
      bounding boxes) are integers, as the annotations of the exporter have
      them ([Dict[CrdtId, int]], [Tuple[int, int, int, int]]); values scaled
      by [SCALE] are exact rationals.  Where Python holds a coordinate in a
      float, the embedding covers the whole numbers; a statement that needs
      the float additions to be exact, because it compares sums made in
      different orders, says so with [held_exactly].
    - A Python [str] is a [string] of 8-bit characters.
    - The output stream is the list of the chunks written to it, in order;
      the logger is the list of the records handed to it, in order.
    - A Python exception is a [Raise] result; the stream and the log keep
      what was written before it.
    - The [rmscene] library, the pen model ([rmc.exporters.writing_tools])
      and the file system are outside this source: what the code calls from
      them is a type-class parameter, and a call that can raise returns a
      [Res]. *)

From Stdlib Require Import ZArith QArith String Ascii List Lia Sorted.
From stdpp Require Import gmap strings list.
Import ListNotations.

Set Warnings "-register-all".

Open Scope Z_scope.
Open Scope string_scope.
Open Scope list_scope.

(** ** Exceptions, the world and the monad of the program *)

Inductive Exn : Type :=
| AssertionError
| ZeroDivisionError
| UsageError (msg : string)
| TypeError
| KeyError (key : Z)
| OSError (strerror : string)
| DecodeFailure.

Inductive Res (A : Type) : Type :=
| Ok (a : A)
| Raise (e : Exn).
Arguments Ok {A} a.
Arguments Raise {A} e.

(** [CrdtId(part1, part2)] of rmscene. *)
Abbreviation CrdtId := (Z * Z)%type.

Inductive LogLevel : Type := DEBUG | INFO | WARNING.

(** An argument handed to a logging call together with its format string. *)
Inductive LogArg : Type :=
| ArgId (i : CrdtId)
| ArgInt (z : Z)
| ArgScaled (q : Q)
| ArgTable (t : gmap CrdtId Z).

Record LogRecord : Type := mkLogRecord {
  levelname : LogLevel;
  msg : string;
  args : list LogArg
}.

Record World : Type := mkWorld {
  stream : list string;      (* chunks written to [output], oldest first *)
  records : list LogRecord   (* calls to [_logger], oldest first *)
}.

Definition M (A : Type) : Type := World -> World * Res A.

#[global] Instance M_ret : MRet M := fun A (a : A) w => (w, Ok a).

#[global] Instance M_bind : MBind M := fun A B (k : A -> M B) (m : M A) w =>
  match m w with
  | (w', Ok a) => k a w'
  | (w', Raise e) => (w', Raise e)
  end.

Definition raise {A} (e : Exn) : M A := fun w => (w, Raise e).

(** A call that has no effect on the stream or the log: its result, or the
    exception it raises. *)
Definition lift {A} (r : Res A) : M A := fun w => (w, r).

(** [output.write(s)] *)
Definition write (s : string) : M unit :=
  fun w => (mkWorld (stream w ++ [s]) (records w), Ok tt).

(** [print(s, file=fout)] *)
Definition newline : string := String (ascii_of_nat 10) EmptyString.
Definition print (s : string) : M unit := write (s +:+ newline).

(** [_logger.<level>(msg, *args)] *)
Definition logger (lv : LogLevel) (m : string) (a : list LogArg) : M unit :=
  fun w => (mkWorld (stream w) (records w ++ [mkLogRecord lv m a]), Ok tt).

(** ** Scene items (rmscene.scene_items) *)

Module Point.
Record t : Type := mk {
  x : Z; y : Z; speed : Z; direction : Z; width : Z; pressure : Z
}.
End Point.

Module Line.
Record t : Type := mk {
  tool : Z;              (* [item.tool.value] *)
  color : Z;             (* [item.color.value] *)
  thickness_scale : Q;
  points : list Point.t
}.
End Line.

(** The fields of a [si.Group] other than its children; an [LwwValue] field
    is its [.value], an optional one is an [option]. *)
Module GroupInfo.
Record t : Type := mk {
  node_id : CrdtId;
  label : string;
  visible : bool;
  anchor_id : option CrdtId;
  anchor_type : option Z;
  anchor_threshold : option Z;
  anchor_origin_x : option Z
}.
End GroupInfo.

(** A group and the values of its [children], in iteration order.  A child
    is a nested group, a line, another scene item, or [None]. *)
Inductive Group : Type :=
| mkGroup (info : GroupInfo.t) (children : list Child)
with Child : Type :=
| CGroup (g : Group)
| CLine (l : Line.t)
| COther (kind : string)
| CNone.

Definition info (g : Group) : GroupInfo.t :=
  match g with mkGroup i _ => i end.
Definition children (g : Group) : list Child :=
  match g with mkGroup _ cs => cs end.

Inductive ParagraphStyle : Type :=
| BASIC | PLAIN | HEADING | BOLD | BULLET | BULLET2 | CHECKBOX | CHECKBOX_CHECKED.

Module CrdtStr.
Record t : Type := mk {
  s : string;
  i : list CrdtId
}.
End CrdtStr.

Module Paragraph.
Record t : Type := mk {
  contents : list CrdtStr.t;
  start_id : CrdtId;
  style : ParagraphStyle     (* [p.style.value] *)
}.
End Paragraph.

(** A [si.Text] item: its position and the paragraphs that
    [TextDocument.from_scene_item] reconstructs from it. *)
Module Text.
Record t : Type := mk {
  pos_x : Z;
  pos_y : Z;
  doc_contents : list Paragraph.t
}.
End Text.

Module SceneTree.
Record t : Type := mk {
  root : Group;
  root_text : option Text.t
}.
End SceneTree.

(** ** The pen model (rmc.exporters.writing_tools, not in this source) *)

Module Pen.
Record t : Type := mk {
  segment_length : Z;
  get_segment_color : Z -> Z -> Z -> Z -> Q -> string;
  get_segment_width : Z -> Z -> Z -> Z -> Q -> Q;
  get_segment_opacity : Z -> Z -> Z -> Z -> Q -> Q
}.
End Pen.

(** [Pen.create(tool, color, thickness_scale)]: a pen, or the exception it
    raises for a tool or a colour it does not know. *)
Class PenModel : Type := Pen_create : Z -> Z -> Q -> Res Pen.t.

(** ** Records of the JSON document *)

Module PointRec.
Record t : Type := mk {
  x : Q; y : Q;
  xorg : Z; yorg : Z;
  anchorx : Z; anchory : Z;
  color : string; width : Q; opacity : Q
}.
End PointRec.

Module TextRec.
Record t : Type := mk {
  x : Q; y : Q;
  xorg : Z; yorg : Z;
  text : string;
  class : string
}.
End TextRec.

Module Page.
Record t : Type := mk { width : Q; height : Q; x : Q; y : Q }.
End Page.

Module PageOrg.
Record t : Type := mk { width : Z; height : Z; x : Z; y : Z }.
End PageOrg.

Module Doc.
Record t : Type := mk {
  page : Page.t;
  pageOrg : PageOrg.t;
  text : list TextRec.t;
  points : list PointRec.t
}.
End Doc.

(** The dictionary that [draw_group] returns when it does not flatten. *)
Inductive GroupDict : Type :=
| mkGroupDict (id : string) (type : string)
              (items : list (list PointRec.t)) (groups : list GroupDict)
              (anchor : Z * Z).

(** What the Python runtime does with the values: the text of a float in an
    f-string, [CrdtId.__repr__], and [json.dumps(r, indent=4)] on the
    document. *)
Class Runtime : Type := {
  format_float : Q -> string;
  repr_CrdtId : CrdtId -> string;
  json_dumps_doc : Doc.t -> string
}.

(** ** exporters/json.py *)

Definition SCREEN_WIDTH : Z := 1404.
Definition SCREEN_HEIGHT : Z := 1872.
Definition SCREEN_DPI : Z := 226.

Definition SCALE : Q := (72 / inject_Z SCREEN_DPI)%Q.

Definition scale (screen_unit : Z) : Q := (inject_Z screen_unit * SCALE)%Q.

Definition xx := scale.
Definition yy := scale.

Definition TEXT_TOP_Y : Z := -88.

Definition LINE_HEIGHTS (st : ParagraphStyle) : option Z :=
  match st with
  | PLAIN => Some 70
  | BULLET => Some 35
  | BULLET2 => Some 35
  | BOLD => Some 70
  | HEADING => Some 150
  | CHECKBOX => Some 35
  | CHECKBOX_CHECKED => Some 35
  | BASIC => None
  end.

(** [LINE_HEIGHTS.get(p.style.value, 70)] *)
Definition line_height (p : Paragraph.t) : Z :=
  default 70 (LINE_HEIGHTS (Paragraph.style p)).

(** The two anchors that [build_anchor_pos] starts from. *)
Definition special_anchors : gmap CrdtId Z :=
  <[(0, 281474976710655) := 100]> (<[(0, 281474976710654) := 100]> ∅).

(** One iteration of [for i, p in enumerate(doc.contents)]. *)
Definition build_anchor_pos_step (st : gmap CrdtId Z * Z) (p : Paragraph.t)
  : gmap CrdtId Z * Z :=
  let '(anchor_pos, ypos) := st in
  let anchor_pos := <[Paragraph.start_id p := ypos]> anchor_pos in
  let anchor_pos :=
    fold_left (fun ap subp =>
                 fold_left (fun ap k => <[k := ypos]> ap) (CrdtStr.i subp) ap)
              (Paragraph.contents p) anchor_pos in
  (anchor_pos, ypos + line_height p).

Definition build_anchor_pos (text : option Text.t) : gmap CrdtId Z :=
  match text with
  | Some text =>
      let ypos := Text.pos_y text + TEXT_TOP_Y in
      fst (fold_left build_anchor_pos_step (Text.doc_contents text)
                     (special_anchors, ypos))
  | None => special_anchors
  end.

Definition get_anchor (item : Group) (anchor_pos : gmap CrdtId Z) : M (Z * Z) :=
  match GroupInfo.anchor_id (info item) with
  | Some aid =>
      match GroupInfo.anchor_origin_x (info item) with
      | None => raise AssertionError
      | Some anchor_x =>
          match anchor_pos !! aid with
          | Some anchor_y =>
              logger DEBUG "Group anchor: %s -> y=%.1f (scalded y=%.1f)"
                     [ArgId aid; ArgInt anchor_y; ArgScaled (yy anchor_y)];;
              mret (anchor_x, anchor_y)
          | None =>
              logger WARNING "Group anchor: %s is unknown!" [ArgId aid];;
              mret (anchor_x, 0)
          end
      end
  | None => mret (0, 0)
  end.

Abbreviation Box := (Z * Z * Z * Z)%type.

(** [min([a] + xs)] and [max([a] + xs)] *)
Definition min_of (a : Z) (xs : list Z) : Z := fold_left Z.min xs a.
Definition max_of (a : Z) (xs : list Z) : Z := fold_left Z.max xs a.

(** The loop of [get_bounding_box] over the children, from the box reached
    so far; [rec] is the recursive call on a nested group. *)
Definition get_bounding_box_loop (rec : Group -> M Box)
    (anchor_pos : gmap CrdtId Z) : list Child -> Box -> M Box :=
  fix loop (cs : list Child) (box : Box) : M Box :=
    match cs with
    | [] => mret box
    | child :: rest =>
        let '(x_min, x_max, y_min, y_max) := box in
        match child with
        | CGroup child =>
            '(anchor_x, anchor_y) ← get_anchor child anchor_pos;
            '(x_min_t, x_max_t, y_min_t, y_max_t) ← rec child;
            loop rest (Z.min x_min (x_min_t + anchor_x),
                       Z.max x_max (x_max_t + anchor_x),
                       Z.min y_min (y_min_t + anchor_y),
                       Z.max y_max (y_max_t + anchor_y))
        | CLine child =>
            loop rest (min_of x_min (map Point.x (Line.points child)),
                       max_of x_max (map Point.x (Line.points child)),
                       min_of y_min (map Point.y (Line.points child)),
                       max_of y_max (map Point.y (Line.points child)))
        | _ => loop rest box
        end
    end.

Fixpoint get_bounding_box (item : Group) (anchor_pos : gmap CrdtId Z)
    (default : Box) {struct item} : M Box :=
  match item with
  | mkGroup _ cs =>
      get_bounding_box_loop
        (fun child => get_bounding_box child anchor_pos (0, 0, 0, 0))
        anchor_pos cs default
  end.

(** The default of the parameter [default]. *)
Definition default_box : Box :=
  ((- SCREEN_WIDTH) `div` 2, SCREEN_WIDTH `div` 2, 0, SCREEN_HEIGHT).

(** [str.isspace] on an 8-bit character. *)
Definition isspace (c : ascii) : bool :=
  let n := nat_of_ascii c in
  (Nat.leb 9 n && Nat.leb n 13) || (Nat.leb 28 n && Nat.leb n 32)
  || Nat.eqb n 133 || Nat.eqb n 160.

Fixpoint lstrip (l : list ascii) : list ascii :=
  match l with
  | c :: r => if isspace c then lstrip r else l
  | [] => []
  end.

(** [s.strip()] *)
Definition strip (s : string) : string :=
  string_of_list_ascii
    (rev (lstrip (rev (lstrip (list_ascii_of_string s))))).

(** [str(p)]: the text of the runs of the paragraph, joined. *)
Definition str_paragraph (p : Paragraph.t) : string :=
  fold_right String.append "" (map CrdtStr.s (Paragraph.contents p)).

(** [p.style.value.name.lower()] *)
Definition style_class (st : ParagraphStyle) : string :=
  match st with
  | BASIC => "basic"
  | PLAIN => "plain"
  | HEADING => "heading"
  | BOLD => "bold"
  | BULLET => "bullet"
  | BULLET2 => "bullet2"
  | CHECKBOX => "checkbox"
  | CHECKBOX_CHECKED => "checkbox_checked"
  end.

(** Truth value of a [str]. *)
Definition nonempty (s : string) : bool :=
  match s with EmptyString => false | String _ _ => true end.

Definition dquote : string := String (ascii_of_nat 34) EmptyString.
Definition tab : string := String (ascii_of_nat 9) EmptyString.

Section Exporter.
Context {RT : Runtime} {PM : PenModel}.

(** The f-string that [draw_text] writes. *)
Definition svg_text (xpos ypos : Z) (cls : string) (content : string) : string :=
  tab +:+ tab +:+ tab +:+ "<text x=" +:+ dquote +:+ format_float (xx xpos)
    +:+ dquote +:+ " y=" +:+ dquote +:+ format_float (yy ypos) +:+ dquote
    +:+ " class=" +:+ dquote +:+ cls +:+ dquote +:+ ">"
    +:+ content +:+ "</text>" +:+ newline.

(** The loop of [draw_text]: [y_offset] and [lines] are its variables. *)
Fixpoint draw_text_loop (text : Text.t) (ps : list Paragraph.t)
    (y_offset : Z) (lines : list TextRec.t) : M (list TextRec.t) :=
  match ps with
  | [] => mret lines
  | p :: rest =>
      let y_offset := y_offset + line_height p in
      let xpos := Text.pos_x text in
      let ypos := Text.pos_y text + y_offset in
      let cls := style_class (Paragraph.style p) in
      if nonempty (str_paragraph p) then
        write (svg_text xpos ypos cls (strip (str_paragraph p)));;
        draw_text_loop text rest y_offset
          (lines ++ [TextRec.mk (xx xpos) (yy ypos) xpos ypos
                                (strip (str_paragraph p)) cls])
      else
        draw_text_loop text rest y_offset lines
  end.

Definition draw_text (text : Text.t) : M (list TextRec.t) :=
  draw_text_loop text (Text.doc_contents text) TEXT_TOP_Y [].

(** The loop of [draw_stroke] over [enumerate(item.points)], from index
    [point_id]; [point_id % pen.segment_length] raises when the segment
    length is zero. *)
Fixpoint draw_stroke_loop (pen : Pen.t) (anchor_x anchor_y : Z)
    (flatten : bool) (pts : list Point.t) (point_id : Z)
    (points : list PointRec.t) (last_segment_width segment_width : Q)
    : M (list PointRec.t) :=
  match pts with
  | [] => mret points
  | point :: rest =>
      let xpos := if flatten then Point.x point + anchor_x else Point.x point in
      let ypos := if flatten then Point.y point + anchor_y else Point.y point in
      if Z.eqb (Pen.segment_length pen) 0 then raise ZeroDivisionError
      else if Z.eqb (point_id `mod` Pen.segment_length pen) 0 then
        let segment_color :=
          Pen.get_segment_color pen (Point.speed point) (Point.direction point)
            (Point.width point) (Point.pressure point) last_segment_width in
        let segment_width :=
          Pen.get_segment_width pen (Point.speed point) (Point.direction point)
            (Point.width point) (Point.pressure point) last_segment_width in
        let segment_opacity :=
          Pen.get_segment_opacity pen (Point.speed point) (Point.direction point)
            (Point.width point) (Point.pressure point) last_segment_width in
        draw_stroke_loop pen anchor_x anchor_y flatten rest (point_id + 1)
          (points ++ [PointRec.mk (xx xpos) (yy ypos)
                        (Point.x point) (Point.y point)
                        anchor_x anchor_y
                        segment_color segment_width segment_opacity])
          segment_width segment_width
      else
        draw_stroke_loop pen anchor_x anchor_y flatten rest (point_id + 1)
          points segment_width segment_width
  end.

Definition draw_stroke (item : Line.t) (anchor_x anchor_y : Z)
    (flatten : bool) : M (list PointRec.t) :=
  pen ← lift (Pen_create (Line.tool item) (Line.color item)
                         (Line.thickness_scale item));
  draw_stroke_loop pen anchor_x anchor_y flatten (Line.points item) 0 [] 0 0.

(** The loop of [draw_group] when [flatten] is true: [items] is its
    variable, [rec] the recursive call on a nested group. *)
Definition draw_group_flat_loop (rec : Group -> M (list PointRec.t))
    (anchor_x anchor_y : Z)
    : list Child -> list PointRec.t -> M (list PointRec.t) :=
  fix loop (cs : list Child) (items : list PointRec.t) :=
    match cs with
    | [] => mret items
    | child :: rest =>
        match child with
        | CGroup child => r ← rec child; loop rest (items ++ r)
        | CLine child =>
            r ← draw_stroke child anchor_x anchor_y true; loop rest (items ++ r)
        | _ => loop rest items
        end
    end.

(** The loop of [draw_group] when [flatten] is false: [items] and [groups]
    are its variables. *)
Definition draw_group_nested_loop (rec : Group -> M GroupDict)
    (anchor_x anchor_y : Z)
    : list Child -> list (list PointRec.t) -> list GroupDict
      -> M (list (list PointRec.t) * list GroupDict) :=
  fix loop (cs : list Child) (items : list (list PointRec.t))
           (groups : list GroupDict) :=
    match cs with
    | [] => mret (items, groups)
    | child :: rest =>
        match child with
        | CGroup child => r ← rec child; loop rest items (groups ++ [r])
        | CLine child =>
            r ← draw_stroke child anchor_x anchor_y false;
            loop rest (items ++ [r]) groups
        | _ => loop rest items groups
        end
    end.

(** The type of the result of [draw_group]: a list of point records when it
    flattens, a dictionary otherwise. *)
Definition DrawGroup (flatten : bool) : Type :=
  if flatten then list PointRec.t else GroupDict.

Fixpoint draw_group (item : Group) (anchor_pos : gmap CrdtId Z)
    (flatten : bool) {struct item} : M (DrawGroup flatten) :=
  '(anchor_x, anchor_y) ← get_anchor item anchor_pos;
  match item with
  | mkGroup inf cs =>
      match flatten return M (DrawGroup flatten) with
      | true =>
          draw_group_flat_loop (fun child => draw_group child anchor_pos true)
                               anchor_x anchor_y cs []
      | false =>
          '(items, groups) ←
            draw_group_nested_loop (fun child => draw_group child anchor_pos false)
                                   anchor_x anchor_y cs [] [];
          mret (mkGroupDict (repr_CrdtId (GroupInfo.node_id inf)) "group"
                            items groups (anchor_x, anchor_y))
      end
  end.

Definition tree_to_json (tree : SceneTree.t) : M unit :=
  let anchor_pos := build_anchor_pos (SceneTree.root_text tree) in
  logger DEBUG "anchor_pos: %s" [ArgTable anchor_pos];;
  '(x_min, x_max, y_min, y_max) ←
    get_bounding_box (SceneTree.root tree) anchor_pos default_box;
  let width_pt := xx (x_max - x_min + 1) in
  let height_pt := yy (y_max - y_min + 1) in
  logger DEBUG
    "x_min, x_max, y_min, y_max: %.1f, %.1f, %.1f, %.1f ; scalded %.1f, %.1f, %.1f, %.1f"
    [ArgInt x_min; ArgInt x_max; ArgInt y_min; ArgInt y_max;
     ArgScaled (xx x_min); ArgScaled (xx x_max);
     ArgScaled (yy y_min); ArgScaled (yy y_max)];;
  let page := Page.mk width_pt height_pt (xx x_min) (yy y_min) in
  text ← match SceneTree.root_text tree with
         | Some root_text => draw_text root_text
         | None => mret []
         end;
  points ← draw_group (SceneTree.root tree) anchor_pos true;
  let r := Doc.mk page (PageOrg.mk x_max y_max x_min y_min) text points in
  write (json_dumps_doc r).

End Exporter.

(** ** cli.py *)

(** What [tree_structure] can be given: a child of a group (the drawing root
    is a group), or the text root. *)
Inductive Item : Type :=
| IChild (c : Child)
| IText (t : Text.t).

(** The value [tree_structure] returns: for a group the tuple
    [(node_id, (label, visible, (anchor fields)), [children])], for anything
    else the item itself. *)
Inductive Structure : Type :=
| STuple (node_id : CrdtId)
         (label : string) (visible : bool)
         (anchor : option CrdtId * option Z * option Z * option Z)
         (children : list Structure)
| SItem (item : Item).

(** Truth value of a child: only [None] is false. *)
Definition truthy (c : Child) : bool :=
  match c with CNone => false | _ => true end.

(** [tree_structure] on a group; the inner loop is the list comprehension
    over [item.children.values()]. *)
Fixpoint tree_structure_group (item : Group) : Structure :=
  match item with
  | mkGroup inf cs =>
      STuple (GroupInfo.node_id inf)
             (GroupInfo.label inf) (GroupInfo.visible inf)
             (GroupInfo.anchor_id inf, GroupInfo.anchor_type inf,
              GroupInfo.anchor_threshold inf, GroupInfo.anchor_origin_x inf)
             ((fix comprehension (cs : list Child) : list Structure :=
                 match cs with
                 | [] => []
                 | child :: rest =>
                     if truthy child then
                       match child with
                       | CGroup g => tree_structure_group g
                       | _ => SItem (IChild child)
                       end :: comprehension rest
                     else comprehension rest
                 end) cs)
  end.

Definition tree_structure (item : Item) : Structure :=
  match item with
  | IChild (CGroup g) => tree_structure_group g
  | _ => SItem item
  end.

(** An iterator: the values it yields, then [StopIteration] ([None]) or an
    exception. *)
Abbreviation Iter A := (list A * option Exn)%type.

(** The loop of [lookahead] once a first value, [last], has been pulled: a
    value is yielded only after the next one has been pulled. *)
Fixpoint lookahead_from {A} (last : A) (it : list A) (stop : option Exn)
    : Iter (A * bool) :=
  match it with
  | [] =>
      match stop with
      | None => ([(last, false)], None)
      | Some e => ([], Some e)
      end
  | val :: it' =>
      let '(ys, e) := lookahead_from val it' stop in ((last, true) :: ys, e)
  end.

Definition lookahead {A} (iterable : Iter A) : Iter (A * bool) :=
  match iterable with
  | ([], stop) => ([], stop)
  | (last :: it, stop) => lookahead_from last it stop
  end.

(** The parts of rmscene, of [json] and of the SVG exporter that the
    command line calls. *)
Class Library : Type := {
  Block : Type;
  read_blocks : list Byte.byte -> Iter Block;
  read_tree : list Byte.byte -> Res SceneTree.t;
  (* [json.dumps(v, default=lambda o: getattr(o, '__dict__', None), indent=4)] *)
  json_dumps_block : Block -> Res string;
  json_dumps_structure : Structure -> Res string;
  tree_to_svg : SceneTree.t -> M unit
}.

(** Paths: [p.suffix] of pathlib, and [open(p, "rb")], which gives the file
    with its bytes or raises an [OSError] (the path is a directory, the
    file cannot be read). *)
Class Files : Type := {
  Path : Type;
  suffix : Path -> string;
  open_rb : Path -> Res (list Byte.byte)
}.

Section Cli.
Context {RT : Runtime} {PM : PenModel} {LIB : Library} {FS : Files}.

(** The [for] loop of [json_blocks] over [lookahead(result)]. *)
Fixpoint json_blocks_loop (it : list (Block * bool)) (stop : option Exn)
    : M unit :=
  match it with
  | [] => match stop with None => mret tt | Some e => raise e end
  | (el, notlast) :: it' =>
      json_string ← lift (json_dumps_block el);
      print json_string;;
      (if notlast then print "," else mret tt);;
      json_blocks_loop it' stop
  end.

Definition json_blocks (f : list Byte.byte) (data : bool) : M unit :=
  let depth : option Z := if data then None else Some 1 in
  let result := read_blocks f in
  print "[";;
  (let '(it, stop) := lookahead result in json_blocks_loop it stop);;
  print "]".

Definition json_tree (f : list Byte.byte) (data : bool) : M unit :=
  tree ← lift (read_tree f);
  let depth : option Z := if data then None else Some 1 in
  let tree_root := tree_structure (IChild (CGroup (SceneTree.root tree))) in
  let tree_root_text :=
    tree_structure (match SceneTree.root_text tree with
                    | Some t => IText t
                    | None => IChild CNone
                    end) in
  tree_root_json ← lift (json_dumps_structure tree_root);
  print "[";;
  print tree_root_json;;
  print ",";;
  tree_root_text_json ← lift (json_dumps_structure tree_root);
  print tree_root_text_json;;
  print "]".

Definition convert_rm (filename : Path) (to : string) : M unit :=
  f ← lift (open_rb filename);
  if String.eqb to "blocks" then json_blocks f true
  else if String.eqb to "blocks-data" then json_blocks f false
  else if String.eqb to "json" then
    tree ← lift (read_tree f); tree_to_json tree
  else if String.eqb to "svg" then
    tree ← lift (read_tree f); tree_to_svg tree
  else if String.eqb to "tree" then json_tree f true
  else if String.eqb to "tree-data" then json_tree f false
  else raise (UsageError ("Unknown format " +:+ to)).

End Cli.

(** ** cli.py: the entry point *)

Definition guess_format {FS : Files} (p : Path) : string :=
  if String.eqb (suffix p) ".rm" then "rm"
  else if String.eqb (suffix p) ".svg" then "svg"
  else if String.eqb (suffix p) ".pdf" then "pdf"
  else if String.eqb (suffix p) ".md" || String.eqb (suffix p) ".markdown"
  then "markdown"
  else "blocks".

(** What [open_output] yields: standard output ([None]) or the file at a
    path, in binary or in text mode.  A file is opened for writing, which
    empties it. *)
Record Sink {FS : Files} : Type := mkSink {
  target : option Path;
  binary : bool
}.

Arguments mkSink {FS} target binary.

Definition open_output {FS : Files} (to : string) (output : option Path) : Sink :=
  let to_binary := String.eqb to "pdf" || String.eqb to "rm" in
  match output with
  | None => if to_binary then mkSink None true else mkSink None false
  | Some output => mkSink (Some output) to_binary
  end.




Section Main.
Context {RT : Runtime} {PM : PenModel} {LIB : Library} {FS : Files}.

(** [for fn in input: convert_rm(Path(fn), to, fout)] *)
Fixpoint convert_all (input : list Path) (to : string) : M unit :=
  match input with
  | [] => mret tt
  | fn :: rest => convert_rm fn to;; convert_all rest to
  end.


End Main.

(** ** exporters/json.py: the template *)

(** ["\n".join(l)] *)
Fixpoint join_lines (l : list string) : string :=
  match l with
  | [] => ""
  | [s] => s
  | s :: rest => s +:+ newline +:+ join_lines rest
  end.

(** [read_template_svg], on the lines that
    [template_path.read_text().splitlines()] gives: [lines[2:-2]], joined. *)
Definition read_template_svg (lines : list string) : string :=
  join_lines (take (length lines - 2 - 2)%nat (drop 2 lines)).

(** ** Notions that the statements use *)

(** The two identifiers that [build_anchor_pos] registers first. *)
Definition anchor_a : CrdtId := (0, 281474976710654).
Definition anchor_b : CrdtId := (0, 281474976710655).

(** The identifiers a paragraph assigns in [build_anchor_pos]: its start
    identifier, then those of its runs. *)
Definition paragraph_ids (p : Paragraph.t) : list CrdtId :=
  Paragraph.start_id p :: concat (map CrdtStr.i (Paragraph.contents p)).

Definition sumZ (l : list Z) : Z := fold_right Z.add 0 l.

(** The sum of the line heights of the first [k] paragraphs. *)
Definition heights_before (ps : list Paragraph.t) (k : nat) : Z :=
  sumZ (map line_height (take k ps)).

(** The running offset of [build_anchor_pos] once the line heights [hs] have
    been added to [y0], one after the other as the loop adds them. *)
Definition advanced (y0 : Z) (hs : list Z) : Z := fold_left Z.add hs y0.

(** Python holds the positions of the text in floats (binary64) and adds
    them as such.  A whole number is held exactly when its absolute value
    is at most 2^53, and the sum of two such numbers is exact when it is
    such a number too. *)
Definition held_exactly (z : Z) : Prop := Z.abs z <= 2 ^ 53.

(** Every addition that the two passes over the first [n] paragraphs of a
    text make is exact: the position of the text and the offsets that the
    passes reach from it stay in the range of [held_exactly]. *)
Definition text_exact (text : Text.t) (n : nat) : Prop :=
  held_exactly (Z.abs (Text.pos_y text) + Z.abs TEXT_TOP_Y
         + heights_before (Text.doc_contents text) n).

(** A group can be resolved by [get_anchor] without failing its assertion:
    it has no anchor identifier, or it has an anchor origin as well. *)
Definition anchor_ok (g : Group) : bool :=
  match GroupInfo.anchor_id (info g), GroupInfo.anchor_origin_x (info g) with
  | Some _, None => false
  | _, _ => true
  end.

(** The offset [get_anchor] returns for a group when it returns. *)
Definition anchor_offset (g : Group) (anchor_pos : gmap CrdtId Z) : Z * Z :=
  match GroupInfo.anchor_id (info g) with
  | Some aid =>
      (default 0 (GroupInfo.anchor_origin_x (info g)),
       default 0 (anchor_pos !! aid))
  | None => (0, 0)
  end.

(** The groups nested in a list of children, at any depth, in the order of
    the walk. *)
Definition groups_of_children (rec : Group -> list Group)
    : list Child -> list Group :=
  fix go (cs : list Child) : list Group :=
    match cs with
    | [] => []
    | CGroup g :: rest => rec g ++ go rest
    | _ :: rest => go rest
    end.

(** A group and the groups nested in it. *)
Fixpoint groups_of (g : Group) : list Group :=
  g :: match g with
       | mkGroup _ cs => groups_of_children (fun c => groups_of c) cs
       end.

(** The groups strictly below a group. *)
Definition descendants (g : Group) : list Group :=
  groups_of_children groups_of (children g).

(** The lines below a list of children, each with the group that directly
    contains it, in the order of the walk. *)
Definition lines_of_children (rec : Group -> list (Group * Line.t))
    (parent : Group) : list Child -> list (Group * Line.t) :=
  fix go (cs : list Child) : list (Group * Line.t) :=
    match cs with
    | [] => []
    | CGroup g :: rest => rec g ++ go rest
    | CLine l :: rest => (parent, l) :: go rest
    | _ :: rest => go rest
    end.

Fixpoint lines_of (g : Group) : list (Group * Line.t) :=
  match g with
  | mkGroup inf cs =>
      lines_of_children (fun c => lines_of c) (mkGroup inf cs) cs
  end.

(** A property of groups, read on a child: it holds of a nested group and
    says nothing of the other children. *)
Definition on_group (P : Group -> Prop) (c : Child) : Prop :=
  match c with CGroup g => P g | _ => True end.

Section StrokeNotions.
Context {PM : PenModel}.

(** The pen of a line: the one [Pen.create] returns for it.  Where
    [Pen.create] raises there is no pen; a pen of segment length 0 then
    stands in, which no stroke is drawn with. *)
Definition pen_of (l : Line.t) : Pen.t :=
  match Pen_create (Line.tool l) (Line.color l) (Line.thickness_scale l) with
  | Ok pen => pen
  | Raise _ => Pen.mk 0 (fun _ _ _ _ _ => "") (fun _ _ _ _ _ => 0%Q)
                      (fun _ _ _ _ _ => 0%Q)
  end.

(** [draw_stroke] returns on this line: [Pen.create] returns a pen, and the
    line has no point or the segment length of the pen is not zero. *)
Definition pen_ok (l : Line.t) : bool :=
  match Pen_create (Line.tool l) (Line.color l) (Line.thickness_scale l) with
  | Ok pen =>
      match Line.points l with
      | [] => true
      | _ :: _ => negb (Z.eqb (Pen.segment_length pen) 0)
      end
  | Raise _ => false
  end.

(** The exception of [draw_stroke] on a line on which it does not return:
    that of [Pen.create], or the division by zero. *)
Definition stroke_error (l : Line.t) : Exn :=
  match Pen_create (Line.tool l) (Line.color l) (Line.thickness_scale l) with
  | Ok _ => ZeroDivisionError
  | Raise e => e
  end.

(** The point records of the points [pts], the first of which has index
    [point_id], for a pen whose segment length is not zero. *)
Fixpoint stroke_records (pen : Pen.t) (anchor_x anchor_y : Z) (flatten : bool)
    (pts : list Point.t) (point_id : Z) (last_segment_width segment_width : Q)
    : list PointRec.t :=
  match pts with
  | [] => []
  | point :: rest =>
      if Z.eqb (point_id `mod` Pen.segment_length pen) 0 then
        let w := Pen.get_segment_width pen (Point.speed point)
                   (Point.direction point) (Point.width point)
                   (Point.pressure point) last_segment_width in
        PointRec.mk
          (xx (if flatten then Point.x point + anchor_x else Point.x point))
          (yy (if flatten then Point.y point + anchor_y else Point.y point))
          (Point.x point) (Point.y point) anchor_x anchor_y
          (Pen.get_segment_color pen (Point.speed point)
             (Point.direction point) (Point.width point)
             (Point.pressure point) last_segment_width)
          w
          (Pen.get_segment_opacity pen (Point.speed point)
             (Point.direction point) (Point.width point)
             (Point.pressure point) last_segment_width)
        :: stroke_records pen anchor_x anchor_y flatten rest (point_id + 1) w w
      else
        stroke_records pen anchor_x anchor_y flatten rest (point_id + 1)
                       segment_width segment_width
  end.

(** The records of a line drawn, flattened, at the anchor offset of the
    group [g]. *)
Definition line_records (anchor_pos : gmap CrdtId Z) (gl : Group * Line.t)
    : list PointRec.t :=
  let '(g, l) := gl in
  let '(anchor_x, anchor_y) := anchor_offset g anchor_pos in
  stroke_records (pen_of l) anchor_x anchor_y true (Line.points l) 0 0 0.

(** The number of points of a line that start a segment: those whose index
    in the line is a multiple of the segment length of the pen. *)
Definition segment_starts (l : Line.t) : nat :=
  length (filter (fun i : Z => i `mod` Pen.segment_length (pen_of l) = 0)
                 (seqZ 0 (Z.of_nat (length (Line.points l))))).

(** No group of the tree fails the assertion of [get_anchor] and
    [draw_stroke] returns on every line. *)
Definition walk_ok (g : Group) : bool :=
  forallb anchor_ok (groups_of g) && forallb pen_ok (map snd (lines_of g)).

End StrokeNotions.

(** What the flattened walk does at a state [w]: nothing is written; when
    the tree is [walk_ok] the result is [items], otherwise an exception. *)
Definition flat_outcome (m : M (list PointRec.t)) (anchors pens : bool)
    (items : list PointRec.t) (w : World) : Prop :=
  exists w', stream w' = stream w /\
    if anchors && pens then m w = (w', Ok items)
    else exists e, m w = (w', Raise e).

(** The number of point records in the dictionary of a nested walk: those of
    its strokes and those of its nested dictionaries. *)
Fixpoint count_records (d : GroupDict) : nat :=
  match d with
  | mkGroupDict _ _ items groups _ =>
      (sum_list (map length items)
       + sum_list (map (fun g => count_records g) groups))%nat
  end.

(** The nested walk, when it returns, holds one record for each segment
    start of each line. *)
Definition nested_counts {RT : Runtime} {PM : PenModel}
    (anchor_pos : gmap CrdtId Z) (g : Group) : Prop :=
  forall w w' d,
    draw_group g anchor_pos false w = (w', Ok d) ->
    count_records d
    = sum_list (map (fun gl : Group * Line.t => segment_starts gl.2)
                    (lines_of g)).

(** The number of points of all the lines of a tree. *)
Definition total_points (root : Group) : nat :=
  sum_list (map (fun gl : Group * Line.t => length (Line.points gl.2))
                (lines_of root)).

(** The walk as C4 words it: each line with the anchor offsets of all the
    groups from the root down to the one that contains it, summed. *)
Definition cumulative_lines_children (rec : Z * Z -> Group -> list (Z * Z * Line.t))
    (off : Z * Z) : list Child -> list (Z * Z * Line.t) :=
  fix go (cs : list Child) : list (Z * Z * Line.t) :=
    match cs with
    | [] => []
    | CGroup g :: rest => rec off g ++ go rest
    | CLine l :: rest => (off, l) :: go rest
    | _ :: rest => go rest
    end.

Fixpoint cumulative_lines (anchor_pos : gmap CrdtId Z) (above : Z * Z)
    (g : Group) : list (Z * Z * Line.t) :=
  let off := (above.1 + (anchor_offset g anchor_pos).1,
              above.2 + (anchor_offset g anchor_pos).2) in
  match g with
  | mkGroup _ cs =>
      cumulative_lines_children
        (fun off c => cumulative_lines anchor_pos off c) off cs
  end.

(** The lines below a group as [get_bounding_box] places them: each with the
    anchor offsets of the groups below [g] that contain it, summed; the
    anchor of [g] itself is not applied. *)
Definition box_lines_children (rec : Group -> list (Z * Z * Line.t))
    (anchor_pos : gmap CrdtId Z) : list Child -> list (Z * Z * Line.t) :=
  fix go (cs : list Child) : list (Z * Z * Line.t) :=
    match cs with
    | [] => []
    | CGroup g :: rest =>
        map (fun ol : Z * Z * Line.t =>
               ((ol.1.1 + (anchor_offset g anchor_pos).1,
                 ol.1.2 + (anchor_offset g anchor_pos).2), ol.2))
            (rec g) ++ go rest
    | CLine l :: rest => ((0, 0), l) :: go rest
    | _ :: rest => go rest
    end.

Fixpoint box_lines (anchor_pos : gmap CrdtId Z) (g : Group)
    : list (Z * Z * Line.t) :=
  match g with
  | mkGroup _ cs =>
      box_lines_children (fun c => box_lines anchor_pos c) anchor_pos cs
  end.

(** The box [b] covers the position [(x, y)]. *)
Definition covers (b : Box) (x y : Z) : Prop :=
  let '(x_min, x_max, y_min, y_max) := b in
  x_min <= x <= x_max /\ y_min <= y <= y_max.

(** The box [b] contains the box [a]. *)
Definition within (a b : Box) : Prop :=
  let '(a_x_min, a_x_max, a_y_min, a_y_max) := a in
  let '(x_min, x_max, y_min, y_max) := b in
  x_min <= a_x_min /\ a_x_max <= x_max /\ y_min <= a_y_min /\ a_y_max <= y_max.

(** When the bounding box is returned, it contains the box it started
    from and covers every point of every line below the group, moved by
    the anchor offsets of all the groups between the group and the
    line. *)
Definition box_covers_lines (anchor_pos : gmap CrdtId Z) (g : Group) : Prop :=
  forall box w w' b,
    get_bounding_box g anchor_pos box w = (w', Ok b) ->
    within box b
    /\ forall ol p, In ol (box_lines anchor_pos g) -> In p (Line.points ol.2) ->
         covers b (Point.x p + ol.1.1) (Point.y p + ol.1.2).

(** The record of the paragraph [p] of a text when the running offset,
    advanced by the line height of [p], is [y_offset]. *)
Definition line_record (text : Text.t) (y_offset : Z) (p : Paragraph.t)
    : TextRec.t :=
  TextRec.mk (xx (Text.pos_x text)) (yy (Text.pos_y text + y_offset))
             (Text.pos_x text) (Text.pos_y text + y_offset)
             (strip (str_paragraph p)) (style_class (Paragraph.style p)).

(** The records of the paragraphs [ps] when the running offset before them
    is [y0]: one for each paragraph whose text, untrimmed, is not empty, at
    [y0] plus the line heights of the paragraphs up to and including it,
    empty ones included. *)
Definition lines_from (text : Text.t) (y0 : Z) (ps : list Paragraph.t)
    : list TextRec.t :=
  concat (imap (fun k p =>
                  if nonempty (str_paragraph p)
                  then [line_record text (y0 + heights_before ps (S k)) p]
                  else []) ps).

Definition rendered_lines (text : Text.t) : list TextRec.t :=
  lines_from text TEXT_TOP_Y (Text.doc_contents text).

(** The records of the text root of a tree, none without a text root. *)
Definition tree_lines (tree : SceneTree.t) : list TextRec.t :=
  match SceneTree.root_text tree with
  | Some text => rendered_lines text
  | None => []
  end.

(** The SVG element written for a record. *)
Definition svg_fragment {RT : Runtime} (r : TextRec.t) : string :=
  svg_text (TextRec.xorg r) (TextRec.yorg r) (TextRec.class r) (TextRec.text r).

(** The lines that [json_blocks] prints for the serialized blocks [ss]: each
    on a line of its own, a line with a comma between two of them. *)
Fixpoint joined (ss : list string) : list string :=
  match ss with
  | [] => []
  | [s] => [s +:+ newline]
  | s :: rest => (s +:+ newline) :: ("," +:+ newline) :: joined rest
  end.

(** The target formats that [convert_rm] knows. *)
Definition known_formats : list string :=
  ["blocks"; "blocks-data"; "json"; "svg"; "tree"; "tree-data"].

(** What [convert_rm] raises for a target format it does not know: the
    exception of [open] when the input cannot be opened, the usage error
    otherwise. *)
Definition refusal {FS : Files} (filename : Path) (to : string) : Exn :=
  match open_rb filename with
  | Ok _ => UsageError ("Unknown format " +:+ to)
  | Raise e => e
  end.

(** The lines [json_blocks] has printed for the serialized blocks [ss] when
    more blocks follow: each with a comma line after it. *)
Definition with_commas (ss : list string) : list string :=
  flat_map (fun s => [s +:+ newline; "," +:+ newline]) ss.

(** The positions that [get_bounding_box] joins to the box it starts from,
    below a list of children: the points of a line; for a nested group, its
    anchor offset (the origin of the all-zero box, moved) and its own
    positions, moved by its anchor offset. *)
Definition marks_children (rec : Group -> list (Z * Z))
    (anchor_pos : gmap CrdtId Z) : list Child -> list (Z * Z) :=
  fix go (cs : list Child) : list (Z * Z) :=
    match cs with
    | [] => []
    | CGroup c :: rest =>
        (anchor_offset c anchor_pos
         :: map (fun m : Z * Z => (m.1 + (anchor_offset c anchor_pos).1,
                                   m.2 + (anchor_offset c anchor_pos).2))
                (rec c))
        ++ go rest
    | CLine l :: rest =>
        map (fun p => (Point.x p, Point.y p)) (Line.points l) ++ go rest
    | _ :: rest => go rest
    end.

Fixpoint marks (anchor_pos : gmap CrdtId Z) (g : Group) : list (Z * Z) :=
  match g with
  | mkGroup _ cs => marks_children (fun c => marks anchor_pos c) anchor_pos cs
  end.

(** The smallest box that contains the box [box] and the positions [ms]. *)
Definition hull (box : Box) (ms : list (Z * Z)) : Box :=
  let '(x_min, x_max, y_min, y_max) := box in
  (min_of x_min (map fst ms), max_of x_max (map fst ms),
   min_of y_min (map snd ms), max_of y_max (map snd ms)).

(** The bounding box of a group is the hull of the box it starts from and
    of the marks of the group. *)
Definition box_is_hull (anchor_pos : gmap CrdtId Z) (g : Group) : Prop :=
  forall box w w' b,
    get_bounding_box g anchor_pos box w = (w', Ok b) ->
    b = hull box (marks anchor_pos g).

(** The node identifiers of the tuples of a structure, in order. *)
Definition structure_ids_list (rec : Structure -> list CrdtId)
    : list Structure -> list CrdtId :=
  fix go (ss : list Structure) : list CrdtId :=
    match ss with
    | [] => []
    | s :: rest => rec s ++ go rest
    end.

Fixpoint structure_ids (s : Structure) : list CrdtId :=
  match s with
  | STuple node_id _ _ _ ch =>
      node_id :: structure_ids_list (fun c => structure_ids c) ch
  | SItem _ => []
  end.

(** The items that a structure holds unchanged, in order. *)
Definition structure_items_list (rec : Structure -> list Item)
    : list Structure -> list Item :=
  fix go (ss : list Structure) : list Item :=
    match ss with
    | [] => []
    | s :: rest => rec s ++ go rest
    end.

Fixpoint structure_items (s : Structure) : list Item :=
  match s with
  | STuple _ _ _ _ ch => structure_items_list (fun c => structure_items c) ch
  | SItem item => [item]
  end.

(** The children below a group that are neither groups nor [None], in the
    order of the walk. *)
Definition leaves_of_children (rec : Group -> list Child)
    : list Child -> list Child :=
  fix go (cs : list Child) : list Child :=
    match cs with
    | [] => []
    | CGroup g :: rest => rec g ++ go rest
    | CNone :: rest => go rest
    | c :: rest => c :: go rest
    end.

Fixpoint leaves_of (g : Group) : list Child :=
  match g with
  | mkGroup _ cs => leaves_of_children (fun c => leaves_of c) cs
  end.

(** The structure of a group keeps its groups and its leaves. *)
Definition structure_keeps (g : Group) : Prop :=
  structure_ids (tree_structure_group g)
  = map (fun h => GroupInfo.node_id (info h)) (groups_of g)
  /\ structure_items (tree_structure_group g) = map IChild (leaves_of g).

(** A group has a group among its children. *)
Definition has_group_child (g : Group) : bool :=
  existsb (fun c => match c with CGroup _ => true | _ => false end) (children g).

(** Only innermost groups are moved: every group of the tree that has a
    group among its children has the anchor offset (0, 0). *)
Definition inner_unmoved (anchor_pos : gmap CrdtId Z) (gs : list Group) : Prop :=
  Forall (fun h => has_group_child h = true ->
                   anchor_offset h anchor_pos = (0, 0)) gs.

(** Each line below [g] is placed by the bounding box at the offset of the
    group that contains it, less the offset of [g] itself. *)
Definition offsets_agree (anchor_pos : gmap CrdtId Z) (g : Group) : Prop :=
  inner_unmoved anchor_pos (groups_of g) ->
  forall pl, In pl (lines_of g) ->
    exists off,
      In (off, pl.2) (box_lines anchor_pos g)
      /\ off.1 + (anchor_offset g anchor_pos).1 = (anchor_offset pl.1 anchor_pos).1
      /\ off.2 + (anchor_offset g anchor_pos).2 = (anchor_offset pl.1 anchor_pos).2.

(** What [get_anchor] logs for a group when it returns: nothing for a group
    without anchor identifier, a debug record for a known identifier, a
    warning for an unknown one. *)
Definition anchor_log (anchor_pos : gmap CrdtId Z) (g : Group) : list LogRecord :=
  match GroupInfo.anchor_id (info g) with
  | Some aid =>
      match anchor_pos !! aid with
      | Some anchor_y =>
          [mkLogRecord DEBUG "Group anchor: %s -> y=%.1f (scalded y=%.1f)"
                       [ArgId aid; ArgInt anchor_y; ArgScaled (yy anchor_y)]]
      | None =>
          [mkLogRecord WARNING "Group anchor: %s is unknown!" [ArgId aid]]
      end
  | None => []
  end.

(** The bounding box of a group, when it returns, has logged the records of
    the groups below it, in the order of the walk. *)
Definition box_logs (anchor_pos : gmap CrdtId Z) (g : Group) : Prop :=
  forall box w w' b,
    get_bounding_box g anchor_pos box w = (w', Ok b) ->
    records w'
    = records w ++ concat (map (anchor_log anchor_pos) (descendants g)).

(** The flattened walk of a group, when it returns, has logged the records
    of the group and of the groups below it, in the order of the walk. *)
Definition walk_logs {RT : Runtime} {PM : PenModel}
    (anchor_pos : gmap CrdtId Z) (g : Group) : Prop :=
  forall w w' items,
    draw_group g anchor_pos true w = (w', Ok items) ->
    records w'
    = records w ++ concat (map (anchor_log anchor_pos) (groups_of g)).

(** ** Concrete inputs *)

(** A text whose only paragraph starts at the first special anchor. *)
Definition text_at_special : Text.t :=
  Text.mk 0 0 [Paragraph.mk [CrdtStr.mk "a" [(1, 16)]] anchor_a PLAIN].

(** A runtime that prints placeholders. *)
Definition example_runtime : Runtime := {|
  format_float := fun _ => "1.0";
  repr_CrdtId := fun _ => "CrdtId(0, 1)";
  json_dumps_doc := fun _ => "{}"
|}.

(** A pen model in which every pen starts a segment every [n] points. *)
Definition pens_every (n : Z) : PenModel :=
  fun _ _ _ => Ok (Pen.mk n (fun _ _ _ _ _ => "black")
                            (fun _ _ _ _ _ => 1%Q) (fun _ _ _ _ _ => 1%Q)).

Definition w0 : World := mkWorld [] [].

Definition plain_info (n : Z) : GroupInfo.t :=
  GroupInfo.mk (0, n) "" true None None None None.

(** A group anchored at [anchor_id] with the horizontal origin [ox]. *)
Definition anchored_info (n : Z) (anchor_id : CrdtId) (ox : Z) : GroupInfo.t :=
  GroupInfo.mk (0, n) "" true (Some anchor_id) None None (Some ox).

(** A group with an anchor identifier and no horizontal origin. *)
Definition broken_info (n : Z) (anchor_id : CrdtId) : GroupInfo.t :=
  GroupInfo.mk (0, n) "" true (Some anchor_id) None None None.

Definition line_of (pts : list (Z * Z)) : Line.t :=
  Line.mk 0 0 1%Q (map (fun xy : Z * Z => Point.mk xy.1 xy.2 0 0 0 0) pts).

(** A root with one line of two points. *)
Definition root_one_line : Group :=
  mkGroup (plain_info 1) [CLine (line_of [(0, 0); (100, 100)])].

(** A line in a group anchored at 200, inside a group anchored at 100. *)
Definition root_nested : Group :=
  mkGroup (plain_info 1)
    [CGroup (mkGroup (anchored_info 2 anchor_b 100)
       [CGroup (mkGroup (anchored_info 3 anchor_b 200)
          [CLine (line_of [(1000, 0)])])])].

(** A line in a group without anchor, inside a group anchored at -1000. *)
Definition root_shifted : Group :=
  mkGroup (plain_info 1)
    [CGroup (mkGroup (anchored_info 2 anchor_b (-1000))
       [CGroup (mkGroup (plain_info 3)
          [CLine (line_of [(1500, 0)])])])].

(** A paragraph of one blank, and a tree whose text root holds it. *)
Definition blank_paragraph : Paragraph.t :=
  Paragraph.mk [CrdtStr.mk " " [(1, 16)]] (0, 0) PLAIN.

Definition tree_blank : SceneTree.t :=
  SceneTree.mk (mkGroup (plain_info 1) []) (Some (Text.mk 0 0 [blank_paragraph])).

(** A heading, an empty paragraph and a plain paragraph, at y = 10. *)
Definition text_three : Text.t :=
  Text.mk 5 10
    [Paragraph.mk [CrdtStr.mk "Title" [(1, 16); (1, 17)]] (0, 0) HEADING;
     Paragraph.mk [] (1, 20) PLAIN;
     Paragraph.mk [CrdtStr.mk " body " [(1, 21); (1, 22)]] (1, 30) PLAIN].

Definition tree_three : SceneTree.t :=
  SceneTree.mk root_one_line (Some text_three).

(** A tree with a group anchored at an identifier that no table has. *)
Definition tree_unknown_anchor : SceneTree.t :=
  SceneTree.mk
    (mkGroup (plain_info 1)
       [CGroup (mkGroup (anchored_info 2 (7, 7) 30) [CLine (line_of [(1, 2)])])])
    None.

(** The same tree, the anchored group without its horizontal origin. *)
Definition tree_broken_anchor : SceneTree.t :=
  SceneTree.mk
    (mkGroup (plain_info 1)
       [CGroup (mkGroup (broken_info 2 (7, 7)) [CLine (line_of [(1, 2)])])])
    None.




(** A library whose files all hold two blocks and the three-paragraph tree,
    and whose serializer tells a group from the text root. *)
Definition example_library : Library := {|
  Block := Z;
  read_blocks := fun _ => ([1; 2], None);
  read_tree := fun _ => Ok tree_three;
  json_dumps_block := fun b => Ok (if Z.eqb b 1 then "{1}" else "{2}");
  json_dumps_structure := fun v =>
    Ok (match v with
        | STuple _ _ _ _ _ => "[group]"
        | SItem (IText _) => "[text]"
        | SItem (IChild _) => "[item]"
        end);
  tree_to_svg := fun _ => mret tt
|}.

(** Paths that are a suffix and what opening them gives. *)
Definition example_files : Files := {|
  Path := string * Res (list Byte.byte);
  suffix := fst;
  open_rb := snd
|}.

(** A library whose decoder yields two blocks and then fails. *)
Definition failing_library : Library := {|
  Block := Z;
  read_blocks := fun _ => ([1; 2], Some DecodeFailure);
  read_tree := fun _ => Raise DecodeFailure;
  json_dumps_block := fun b => if Z.eqb b 1 then Ok "{1}" else Raise TypeError;
  json_dumps_structure := fun _ => Raise TypeError;
  tree_to_svg := fun _ => mret tt
|}.

(** A library whose decoder yields two blocks, the second of which does not
    serialize. *)
Definition unserializable_library : Library := {|
  Block := Z;
  read_blocks := fun _ => ([1; 2], None);
  read_tree := fun _ => Raise DecodeFailure;
  json_dumps_block := fun b => if Z.eqb b 1 then Ok "{1}" else Raise TypeError;
  json_dumps_structure := fun _ => Raise TypeError;
  tree_to_svg := fun _ => mret tt
|}.

(** A root whose only child is an empty group anchored at x = 5000. *)
Definition root_empty_anchor : Group :=
  mkGroup (plain_info 1) [CGroup (mkGroup (anchored_info 2 anchor_b 5000) [])].

(** The usual shape: a root, a layer, and in it an anchored group with a
    line that leaves the screen on the right. *)
Definition root_layered : Group :=
  mkGroup (plain_info 1)
    [CGroup (mkGroup (plain_info 2)
       [CGroup (mkGroup (anchored_info 3 anchor_b 30)
          [CLine (line_of [(2000, 2)])])])].

(** ** The anchor-position table *)

Lemma fold_insert_lookup_in (ks : list CrdtId) (v : Z) (m : gmap CrdtId Z) k :
  k ∈ ks -> fold_left (fun ap k => <[k := v]> ap) ks m !! k = Some v.
Proof.
  revert m. induction ks as [|k0 ks IH]; intros m Hin.
  - inversion Hin.
  - simpl. destruct (decide (k ∈ ks)) as [Hk|Hk].
    + by apply IH.
    + apply elem_of_cons in Hin as [->|Hin]; [|done].
      clear IH. revert m. induction ks as [|k1 ks IH]; intros m; simpl.
      * apply lookup_insert_eq.
      * apply not_elem_of_cons in Hk as [Hne Hk].
        rewrite insert_insert_ne; [|done]. by apply IH.
Qed.

Lemma fold_insert_lookup_notin (ks : list CrdtId) (v : Z) (m : gmap CrdtId Z) k :
  k ∉ ks -> fold_left (fun ap k => <[k := v]> ap) ks m !! k = m !! k.
Proof.
  revert m. induction ks as [|k0 ks IH]; intros m Hin; simpl; [done|].
  apply not_elem_of_cons in Hin as [Hne Hin].
  rewrite IH; [|done]. by apply lookup_insert_ne.
Qed.

Lemma fold_runs_insert (cs : list CrdtStr.t) (v : Z) (m : gmap CrdtId Z) :
  fold_left (fun ap subp =>
               fold_left (fun ap k => <[k := v]> ap) (CrdtStr.i subp) ap) cs m
  = fold_left (fun ap k => <[k := v]> ap) (concat (map CrdtStr.i cs)) m.
Proof.
  revert m. induction cs as [|c cs IH]; intros m; simpl; [done|].
  by rewrite IH, fold_left_app.
Qed.

(** One paragraph: its identifiers get the current offset, the others keep
    their entry, and the offset advances by the line height. *)
Lemma build_anchor_pos_step_eq ap ypos p :
  build_anchor_pos_step (ap, ypos) p
  = (fold_left (fun ap k => <[k := ypos]> ap) (paragraph_ids p) ap,
     ypos + line_height p).
Proof.
  unfold build_anchor_pos_step, paragraph_ids. simpl.
  by rewrite fold_runs_insert.
Qed.

Lemma build_anchor_pos_step_in ap ypos p k :
  k ∈ paragraph_ids p -> (build_anchor_pos_step (ap, ypos) p).1 !! k = Some ypos.
Proof.
  intros Hin. rewrite build_anchor_pos_step_eq. cbn [fst].
  by apply fold_insert_lookup_in.
Qed.

Lemma build_anchor_pos_step_notin ap ypos p k :
  k ∉ paragraph_ids p -> (build_anchor_pos_step (ap, ypos) p).1 !! k = ap !! k.
Proof.
  intros Hin. rewrite build_anchor_pos_step_eq. cbn [fst].
  by apply fold_insert_lookup_notin.
Qed.

Lemma build_anchor_pos_step_ypos ap ypos p :
  (build_anchor_pos_step (ap, ypos) p).2 = ypos + line_height p.
Proof. by rewrite build_anchor_pos_step_eq. Qed.

Lemma build_anchor_pos_step_keeps st p k :
  is_Some (st.1 !! k) -> is_Some ((build_anchor_pos_step st p).1 !! k).
Proof.
  destruct st as [ap ypos]. intros Hk.
  destruct (decide (k ∈ paragraph_ids p)).
  - rewrite build_anchor_pos_step_in; eauto.
  - by rewrite build_anchor_pos_step_notin.
Qed.

Lemma fold_steps_keeps ps st k :
  is_Some (st.1 !! k) ->
  is_Some ((fold_left build_anchor_pos_step ps st).1 !! k).
Proof.
  revert st. induction ps as [|p ps IH]; intros st Hk; simpl; [done|].
  apply IH. by apply build_anchor_pos_step_keeps.
Qed.

Lemma fold_steps_notin ps st k :
  Forall (fun p => k ∉ paragraph_ids p) ps ->
  (fold_left build_anchor_pos_step ps st).1 !! k = st.1 !! k.
Proof.
  revert st. induction ps as [|p ps IH]; intros st Hk; simpl; [done|].
  apply Forall_cons in Hk as [Hp Hk]. rewrite IH; [|done].
  destruct st. by apply build_anchor_pos_step_notin.
Qed.

Lemma fold_steps_ypos ps st :
  (fold_left build_anchor_pos_step ps st).2 = st.2 + sumZ (map line_height ps).
Proof.
  revert st. induction ps as [|p ps IH]; intros st; simpl; [lia|].
  rewrite IH. destruct st. rewrite build_anchor_pos_step_ypos. simpl. lia.
Qed.

(** The running offset of the loop, in the order of its additions. *)
Lemma fold_steps_advanced ps st :
  (fold_left build_anchor_pos_step ps st).2
  = advanced st.2 (map line_height ps).
Proof.
  unfold advanced. revert st. induction ps as [|p ps IH]; intros st; [done|].
  cbn [fold_left map]. rewrite IH. destruct st.
  by rewrite build_anchor_pos_step_ypos.
Qed.

Lemma advanced_sum y0 hs : advanced y0 hs = y0 + sumZ hs.
Proof.
  unfold advanced. revert y0. induction hs as [|h hs IH]; intros y0.
  - cbn. lia.
  - cbn [fold_left sumZ fold_right]. rewrite IH. unfold sumZ. lia.
Qed.

Lemma special_anchors_lookup k :
  special_anchors !! k
  = if decide (k = anchor_a ∨ k = anchor_b) then Some 100 else None.
Proof.
  unfold special_anchors, anchor_a, anchor_b.
  destruct (decide (k = (0, 281474976710655))) as [->|Hb].
  - rewrite lookup_insert_eq. by rewrite decide_True by auto.
  - rewrite lookup_insert_ne by done.
    destruct (decide (k = (0, 281474976710654))) as [->|Ha].
    + rewrite lookup_insert_eq. by rewrite decide_True by auto.
    + rewrite lookup_insert_ne by done. rewrite lookup_empty.
      by rewrite decide_False by (intros [?|?]; done).
Qed.

(** C7, as stated, fails: a paragraph that carries a special identifier
    overwrites its entry; here the first special anchor ends at -88. *)
Lemma build_anchor_pos_special_overwritten :
  build_anchor_pos (Some text_at_special) !! anchor_a = Some (-88)
  /\ build_anchor_pos (Some text_at_special) !! anchor_a <> Some 100.
Proof.
  assert (H : build_anchor_pos (Some text_at_special) !! anchor_a = Some (-88)).
  { unfold build_anchor_pos, text_at_special. cbn [Text.doc_contents fold_left].
    rewrite build_anchor_pos_step_eq. cbn [fst].
    apply fold_insert_lookup_in. unfold paragraph_ids. cbn. apply elem_of_cons; by left. }
  split; [exact H|]. rewrite H. discriminate.
Qed.

(** C7 (amended): for every document the table has an entry for each of the
    two special identifiers; the entry is 100 whenever no paragraph of the
    text root carries that identifier as its start or as a run identifier;
    and without a text root the table has exactly the two entries, both
    100. *)
Theorem build_anchor_pos_special :
  (forall text,
      is_Some (build_anchor_pos text !! anchor_a)
      /\ is_Some (build_anchor_pos text !! anchor_b))
  /\ (forall text k,
        k = anchor_a \/ k = anchor_b ->
        Forall (fun p => k ∉ paragraph_ids p) (Text.doc_contents text) ->
        build_anchor_pos (Some text) !! k = Some 100)
  /\ (forall k,
        build_anchor_pos None !! k
        = if decide (k = anchor_a \/ k = anchor_b) then Some 100 else None)
  /\ size (build_anchor_pos None) = 2%nat.
Proof.
  split; [|split; [|split]].
  - intros [text|]; simpl.
    + split; apply fold_steps_keeps; cbn [fst];
        rewrite special_anchors_lookup; rewrite decide_True by auto; eauto.
    + rewrite !special_anchors_lookup. rewrite !decide_True by auto. eauto.
  - intros text k Hk Hnot. unfold build_anchor_pos.
    rewrite fold_steps_notin by done. cbn [fst].
    rewrite special_anchors_lookup. by rewrite decide_True.
  - intros k. apply special_anchors_lookup.
  - unfold build_anchor_pos, special_anchors.
    rewrite map_size_insert_None, map_size_insert_None; [done|done|].
    by rewrite lookup_insert_ne.
Qed.

(** The identifiers of the three-paragraph example are not special: the
    first special entry of its table is 100. *)
Lemma build_anchor_pos_special_witness :
  build_anchor_pos (Some text_three) !! anchor_a = Some 100.
Proof.
  apply (proj1 (proj2 build_anchor_pos_special) text_three anchor_a).
  - left. reflexivity.
  - apply (bool_decide_unpack _). vm_compute. exact I.
Defined.

(** ** Reasoning in the monad *)

Lemma bind_ok {A B} (m : M A) (k : A -> M B) w w1 a :
  m w = (w1, Ok a) -> (m ≫= k) w = k a w1.
Proof. intros H. unfold mbind, M_bind. by rewrite H. Qed.

Lemma bind_raise {A B} (m : M A) (k : A -> M B) w w1 e :
  m w = (w1, Raise e) -> (m ≫= k) w = (w1, Raise e).
Proof. intros H. unfold mbind, M_bind. by rewrite H. Qed.

Lemma bind_ret {A B} (a : A) (k : A -> M B) w : (mret a ≫= k) w = k a w.
Proof. reflexivity. Qed.

(** Case analysis on the computation at the head of a [bind]. *)
Ltac bind_cases w1 a e E :=
  match goal with
  | |- context [ (?m ≫= ?k) ?w ] =>
      destruct (m w) as [w1 [a|e]] eqn:E;
      [ rewrite (bind_ok m k w w1 a E) | rewrite (bind_raise m k w w1 e E) ]
  end.

(** ** Induction on the drawing tree *)

Lemma Group_nested_ind (P : Group -> Prop) :
  (forall inf cs, Forall (on_group P) cs -> P (mkGroup inf cs)) ->
  forall g, P g.
Proof.
  intros H. fix IH 1. intros [inf cs]. apply H.
  induction cs as [|c cs IHcs]; constructor; [|exact IHcs].
  destruct c; simpl; try exact I. apply IH.
Qed.

(** ** get_anchor *)

Lemma get_anchor_raise g ap w :
  anchor_ok g = false -> get_anchor g ap w = (w, Raise AssertionError).
Proof.
  unfold anchor_ok, get_anchor.
  destruct (GroupInfo.anchor_id (info g)) as [aid|]; [|discriminate].
  destruct (GroupInfo.anchor_origin_x (info g)); [discriminate|]. done.
Qed.

Lemma get_anchor_return g ap w :
  anchor_ok g = true ->
  exists w', get_anchor g ap w = (w', Ok (anchor_offset g ap))
             /\ stream w' = stream w.
Proof.
  unfold anchor_ok, get_anchor, anchor_offset.
  destruct (GroupInfo.anchor_id (info g)) as [aid|]; [|by eexists].
  destruct (GroupInfo.anchor_origin_x (info g)) as [ox|]; [|discriminate].
  intros _. destruct (ap !! aid) as [v|]; by eexists.
Qed.

Lemma get_anchor_inv g ap w w' a :
  get_anchor g ap w = (w', Ok a) ->
  anchor_ok g = true /\ a = anchor_offset g ap /\ stream w' = stream w.
Proof.
  intros H. destruct (anchor_ok g) eqn:Hok.
  - destruct (get_anchor_return g ap w Hok) as (w1 & H1 & Hs).
    rewrite H in H1. by simplify_eq.
  - rewrite get_anchor_raise in H by done. discriminate.
Qed.

Lemma groups_of_eq g : groups_of g = g :: descendants g.
Proof. by destruct g. Qed.

(** ** get_bounding_box *)

Section BoundingBox.
Context (anchor_pos : gmap CrdtId Z).

Lemma get_bounding_box_nil inf box :
  get_bounding_box (mkGroup inf []) anchor_pos box = mret box.
Proof. reflexivity. Qed.

(** A nested group: its own anchor, its box from the all-zero default, and
    the translated box joined to the extent reached so far. *)
Lemma get_bounding_box_group inf child rest x_min x_max y_min y_max :
  get_bounding_box (mkGroup inf (CGroup child :: rest)) anchor_pos
                   (x_min, x_max, y_min, y_max)
  = ('(anchor_x, anchor_y) ← get_anchor child anchor_pos;
     '(x_min_t, x_max_t, y_min_t, y_max_t) ←
       get_bounding_box child anchor_pos (0, 0, 0, 0);
     get_bounding_box (mkGroup inf rest) anchor_pos
       (Z.min x_min (x_min_t + anchor_x), Z.max x_max (x_max_t + anchor_x),
        Z.min y_min (y_min_t + anchor_y), Z.max y_max (y_max_t + anchor_y))).
Proof. reflexivity. Qed.

Lemma get_bounding_box_line inf child rest x_min x_max y_min y_max :
  get_bounding_box (mkGroup inf (CLine child :: rest)) anchor_pos
                   (x_min, x_max, y_min, y_max)
  = get_bounding_box (mkGroup inf rest) anchor_pos
      (min_of x_min (map Point.x (Line.points child)),
       max_of x_max (map Point.x (Line.points child)),
       min_of y_min (map Point.y (Line.points child)),
       max_of y_max (map Point.y (Line.points child))).
Proof. reflexivity. Qed.

Lemma get_bounding_box_skip inf child rest box :
  (forall g, child <> CGroup g) -> (forall l, child <> CLine l) ->
  get_bounding_box (mkGroup inf (child :: rest)) anchor_pos box
  = get_bounding_box (mkGroup inf rest) anchor_pos box.
Proof.
  intros Hg Hl. destruct box as [[[x_min x_max] y_min] y_max].
  destruct child; try reflexivity; [by destruct (Hg g)|by destruct (Hl l)].
Qed.

(** The bounding box raises exactly when a group strictly below fails the
    assertion of [get_anchor], and it never writes to the stream. *)
Lemma get_bounding_box_cases g box w :
  exists w', stream w' = stream w /\
    if forallb anchor_ok (descendants g)
    then exists b, get_bounding_box g anchor_pos box w = (w', Ok b)
    else get_bounding_box g anchor_pos box w = (w', Raise AssertionError).
Proof.
  revert box w. induction g as [inf cs IH] using Group_nested_ind.
  unfold descendants. cbn [children].
  induction cs as [|c cs IHcs]; intros box w.
  - exists w. split; [done|]. simpl. by eexists.
  - apply Forall_cons in IH as [Hc IH]. specialize (IHcs IH).
    destruct box as [[[x_min x_max] y_min] y_max].
    destruct c as [child|l|kind|].
    + rewrite get_bounding_box_group. cbn [groups_of_children].
      rewrite groups_of_eq.
      rewrite forallb_app. cbn [forallb].
      destruct (anchor_ok child) eqn:Hok.
      * destruct (get_anchor_return child anchor_pos w Hok) as (w1 & E1 & S1).
        rewrite (bind_ok _ _ _ _ _ E1). cbn beta iota.
        destruct (anchor_offset child anchor_pos) as [ax ay].
        destruct (Hc (0, 0, 0, 0) w1) as (w2 & S2 & Hrec).
        destruct (forallb anchor_ok (descendants child)).
        -- destruct Hrec as [[[[xa xb] ya] yb] E2].
           rewrite (bind_ok _ _ _ _ _ E2). cbn beta iota.
           match goal with
           | |- context [get_bounding_box (mkGroup inf cs) anchor_pos ?b w2] =>
               destruct (IHcs b w2) as (w3 & S3 & Hrest)
           end.
           exists w3. split; [congruence|]. cbn [andb]. exact Hrest.
        -- rewrite (bind_raise _ _ _ _ _ Hrec).
           exists w2. split; [congruence|done].
      * rewrite (bind_raise _ _ _ _ _ (get_anchor_raise _ _ _ Hok)).
        by exists w.
    + rewrite get_bounding_box_line. apply IHcs.
    + rewrite get_bounding_box_skip by done. apply IHcs.
    + rewrite get_bounding_box_skip by done. apply IHcs.
Qed.

End BoundingBox.

(** C8: for a drawing root without children, [get_bounding_box] with its
    default argument returns (-702, 702, 0, 1872), that is minus and plus half
    the screen width of 1404 and the screen height of 1872, without any
    effect; the recursive call on a nested group starts from the all-zero
    box, so that a nested group without children has the box (0, 0, 0, 0). *)
Theorem get_bounding_box_default :
  default_box = (-702, 702, 0, 1872)
  /\ default_box = (- (SCREEN_WIDTH / 2), SCREEN_WIDTH / 2, 0, SCREEN_HEIGHT)
  /\ (forall inf anchor_pos w,
        get_bounding_box (mkGroup inf []) anchor_pos default_box w
        = (w, Ok (-702, 702, 0, 1872)))
  /\ (forall inf child rest anchor_pos x_min x_max y_min y_max,
        get_bounding_box (mkGroup inf (CGroup child :: rest)) anchor_pos
                         (x_min, x_max, y_min, y_max)
        = ('(anchor_x, anchor_y) ← get_anchor child anchor_pos;
           '(x_min_t, x_max_t, y_min_t, y_max_t) ←
             get_bounding_box child anchor_pos (0, 0, 0, 0);
           get_bounding_box (mkGroup inf rest) anchor_pos
             (Z.min x_min (x_min_t + anchor_x), Z.max x_max (x_max_t + anchor_x),
              Z.min y_min (y_min_t + anchor_y), Z.max y_max (y_max_t + anchor_y))))
  /\ (forall inf anchor_pos w,
        get_bounding_box (mkGroup inf []) anchor_pos (0, 0, 0, 0) w
        = (w, Ok (0, 0, 0, 0))).
Proof.
  split; [reflexivity|]. split; [reflexivity|]. split; [|split].
  - intros inf anchor_pos w. by rewrite get_bounding_box_nil.
  - intros. apply get_bounding_box_group.
  - intros inf anchor_pos w. by rewrite get_bounding_box_nil.
Qed.

(** ** draw_stroke *)

Section Stroke.
Context {RT : Runtime} {PM : PenModel}.

Lemma draw_stroke_loop_ok pen ax ay fl pts :
  Pen.segment_length pen <> 0 ->
  forall k acc lw sw w,
    draw_stroke_loop pen ax ay fl pts k acc lw sw w
    = (w, Ok (acc ++ stroke_records pen ax ay fl pts k lw sw)).
Proof.
  intros Hseg. apply Z.eqb_neq in Hseg.
  induction pts as [|p pts IH]; intros k acc lw sw w.
  - simpl. by rewrite app_nil_r.
  - cbn [draw_stroke_loop stroke_records]. rewrite Hseg.
    destruct (Z.eqb (k `mod` Pen.segment_length pen) 0).
    + rewrite IH. by rewrite <- app_assoc.
    + by rewrite IH.
Qed.

Lemma draw_stroke_loop_zero pen ax ay fl p pts k acc lw sw w :
  Pen.segment_length pen = 0 ->
  draw_stroke_loop pen ax ay fl (p :: pts) k acc lw sw w
  = (w, Raise ZeroDivisionError).
Proof. intros Hseg. cbn [draw_stroke_loop]. by rewrite Hseg. Qed.

(** [draw_stroke] has no effect; it raises exactly when [Pen.create]
    raises, or the line has a point and the segment length of its pen is
    zero. *)
Lemma draw_stroke_cases l ax ay fl w :
  draw_stroke l ax ay fl w
  = (w, if pen_ok l
        then Ok (stroke_records (pen_of l) ax ay fl (Line.points l) 0 0 0)
        else Raise (stroke_error l)).
Proof.
  unfold draw_stroke, pen_ok, pen_of, stroke_error.
  destruct (Pen_create (Line.tool l) (Line.color l) (Line.thickness_scale l))
    as [pen|e]; [|reflexivity].
  rewrite (bind_ok (lift (Ok pen)) _ w w pen) by reflexivity.
  destruct (Line.points l) as [|p pts] eqn:Hpts.
  - reflexivity.
  - destruct (Z.eqb_spec (Pen.segment_length pen) 0) as [Hz|Hnz].
    + by apply draw_stroke_loop_zero.
    + cbn [negb]. by rewrite draw_stroke_loop_ok.
Qed.

(** Every record of a stroke comes from one of its points, moved by the
    anchor offset it was drawn with. *)
Lemma stroke_records_point pen ax ay pts k lw sw r :
  r ∈ stroke_records pen ax ay true pts k lw sw ->
  exists p, p ∈ pts
    /\ PointRec.xorg r = Point.x p /\ PointRec.yorg r = Point.y p
    /\ PointRec.anchorx r = ax /\ PointRec.anchory r = ay
    /\ PointRec.x r = xx (Point.x p + ax)
    /\ PointRec.y r = yy (Point.y p + ay).
Proof.
  revert k lw sw. induction pts as [|p pts IH]; intros k lw sw Hr.
  - inversion Hr.
  - cbn [stroke_records] in Hr.
    destruct (Z.eqb (k `mod` Pen.segment_length pen) 0).
    + apply elem_of_cons in Hr as [->|Hr].
      * exists p. split; [apply elem_of_cons; by left|]. by cbn.
      * destruct (IH _ _ _ Hr) as (q & Hq & Hrest).
        exists q. split; [apply elem_of_cons; by right|done].
    + destruct (IH _ _ _ Hr) as (q & Hq & Hrest).
      exists q. split; [apply elem_of_cons; by right|done].
Qed.

Lemma stroke_records_length pen ax ay fl pts k lw sw :
  length (stroke_records pen ax ay fl pts k lw sw)
  = length (filter (fun i : Z => i `mod` Pen.segment_length pen = 0)
                   (seqZ k (Z.of_nat (length pts)))).
Proof.
  revert k lw sw. induction pts as [|p pts IH]; intros k lw sw.
  - reflexivity.
  - cbn [stroke_records length].
    rewrite Nat2Z.inj_succ, seqZ_cons by lia.
    rewrite Z.pred_succ, filter_cons.
    destruct (Z.eqb_spec (k `mod` Pen.segment_length pen) 0) as [Hz|Hnz].
    + rewrite decide_True by done. cbn [length]. f_equal.
      rewrite IH. by rewrite Z.add_1_r.
    + rewrite decide_False by done. rewrite IH. by rewrite Z.add_1_r.
Qed.

Lemma line_records_length ap g l :
  length (line_records ap (g, l)) = segment_starts l.
Proof.
  unfold line_records, segment_starts.
  destruct (anchor_offset g ap). apply stroke_records_length.
Qed.

Lemma segment_starts_le l : (segment_starts l <= length (Line.points l))%nat.
Proof.
  unfold segment_starts. etrans; [apply length_filter|].
  rewrite length_seqZ. lia.
Qed.

Lemma segment_starts_one l :
  Pen.segment_length (pen_of l) = 1 ->
  segment_starts l = length (Line.points l).
Proof.
  intros H1. unfold segment_starts. rewrite H1.
  assert (Hall : forall xs : list Z,
             filter (fun i : Z => i `mod` 1 = 0) xs = xs).
  { induction xs as [|i xs IH]; [done|].
    rewrite filter_cons_True by apply Z.mod_1_r. by rewrite IH. }
  rewrite Hall, length_seqZ. lia.
Qed.

End Stroke.

(** ** draw_group, flattening *)

Section FlatWalk.
Context {RT : Runtime} {PM : PenModel} (anchor_pos : gmap CrdtId Z).

Lemma draw_group_flat_eq inf cs :
  draw_group (mkGroup inf cs) anchor_pos true
  = ('(anchor_x, anchor_y) ← get_anchor (mkGroup inf cs) anchor_pos;
     draw_group_flat_loop (fun child => draw_group child anchor_pos true)
                          anchor_x anchor_y cs []).
Proof. reflexivity. Qed.

Lemma draw_group_flat_loop_group rec ax ay child rest acc :
  draw_group_flat_loop rec ax ay (CGroup child :: rest) acc
  = (r ← rec child; draw_group_flat_loop rec ax ay rest (acc ++ r)).
Proof. reflexivity. Qed.

Lemma draw_group_flat_loop_line rec ax ay child rest acc :
  draw_group_flat_loop rec ax ay (CLine child :: rest) acc
  = (r ← draw_stroke child ax ay true;
     draw_group_flat_loop rec ax ay rest (acc ++ r)).
Proof. reflexivity. Qed.

Lemma draw_group_flat_loop_cases parent ax ay cs :
  anchor_offset parent anchor_pos = (ax, ay) ->
  Forall (on_group (fun g => forall w,
    flat_outcome (draw_group g anchor_pos true)
      (forallb anchor_ok (groups_of g)) (forallb pen_ok (map snd (lines_of g)))
      (concat (map (line_records anchor_pos) (lines_of g))) w)) cs ->
  forall acc w,
    flat_outcome
      (draw_group_flat_loop (fun child => draw_group child anchor_pos true)
                            ax ay cs acc)
      (forallb anchor_ok (groups_of_children groups_of cs))
      (forallb pen_ok (map snd (lines_of_children lines_of parent cs)))
      (acc ++ concat (map (line_records anchor_pos)
                          (lines_of_children lines_of parent cs))) w.
Proof.
  unfold flat_outcome.
  intros Hoff. induction cs as [|c cs IHcs]; intros IH acc w.
  - exists w. split; [done|]. simpl. by rewrite app_nil_r.
  - apply Forall_cons in IH as [Hc IH]. specialize (IHcs IH).
    destruct c as [child|l|kind|].
    + rewrite draw_group_flat_loop_group. cbn beta.
      cbn [groups_of_children lines_of_children].
      rewrite map_app, !forallb_app, map_app, concat_app.
      destruct (Hc w) as (w1 & S1 & H1). simpl in Hc.
      destruct (forallb anchor_ok (groups_of child)) eqn:Ea;
        destruct (forallb pen_ok (map snd (lines_of child))) eqn:Ep;
        cbn [andb] in H1.
      * rewrite (bind_ok _ _ _ _ _ H1).
        destruct (IHcs (acc ++ concat (map (line_records anchor_pos)
                                           (lines_of child))) w1)
          as (w2 & S2 & H2).
        exists w2. split; [congruence|]. cbn [andb].
        by rewrite <- app_assoc in H2.
      * destruct H1 as (e & H1).
        rewrite (bind_raise _ _ _ _ _ H1).
        exists w1. split; [done|]. cbn [andb]. rewrite andb_false_r.
        by exists e.
      * destruct H1 as (e & H1).
        rewrite (bind_raise _ _ _ _ _ H1).
        exists w1. split; [done|]. cbn [andb]. by exists e.
      * destruct H1 as (e & H1).
        rewrite (bind_raise _ _ _ _ _ H1).
        exists w1. split; [done|]. cbn [andb]. by exists e.
    + rewrite draw_group_flat_loop_line.
      cbn [groups_of_children lines_of_children map snd forallb concat].
      assert (Hrec : line_records anchor_pos (parent, l)
                     = stroke_records (pen_of l) ax ay true (Line.points l) 0 0 0).
      { unfold line_records. by rewrite Hoff. }
      pose proof (draw_stroke_cases l ax ay true w) as Hs.
      destruct (pen_ok l) eqn:Ep.
      * rewrite (bind_ok _ _ _ _ _ Hs).
        destruct (IHcs (acc ++ line_records anchor_pos (parent, l)) w)
          as (w2 & S2 & H2).
        exists w2. split; [done|]. cbn [andb].
        rewrite <- app_assoc in H2. by rewrite <- Hrec.
      * rewrite (bind_raise _ _ _ _ _ Hs).
        exists w. split; [done|]. cbn [andb]. rewrite andb_false_r.
        by exists (stroke_error l).
    + apply IHcs.
    + apply IHcs.
Qed.

Lemma draw_group_flat_cases g w :
  flat_outcome (draw_group g anchor_pos true)
    (forallb anchor_ok (groups_of g)) (forallb pen_ok (map snd (lines_of g)))
    (concat (map (line_records anchor_pos) (lines_of g))) w.
Proof.
  revert w. induction g as [inf cs IH] using Group_nested_ind. intros w.
  unfold flat_outcome.
  rewrite draw_group_flat_eq, groups_of_eq. cbn [forallb].
  unfold descendants. cbn [children].
  destruct (anchor_ok (mkGroup inf cs)) eqn:Hok.
  - destruct (get_anchor_return _ anchor_pos w Hok) as (w1 & E1 & S1).
    rewrite (bind_ok _ _ _ _ _ E1).
    destruct (anchor_offset (mkGroup inf cs) anchor_pos) as [ax ay] eqn:Hoff.
    destruct (draw_group_flat_loop_cases (mkGroup inf cs) ax ay cs Hoff IH [] w1)
      as (w2 & S2 & H2).
    exists w2. split; [congruence|]. cbn [andb]. exact H2.
  - rewrite (bind_raise _ _ _ _ _ (get_anchor_raise _ _ _ Hok)).
    exists w. split; [done|]. cbn [andb]. by exists AssertionError.
Qed.

Lemma draw_group_flat_inv g w w' items :
  draw_group g anchor_pos true w = (w', Ok items) ->
  items = concat (map (line_records anchor_pos) (lines_of g))
  /\ stream w' = stream w /\ walk_ok g = true.
Proof.
  intros H. destruct (draw_group_flat_cases g w) as (w1 & S1 & H1).
  unfold walk_ok.
  destruct (forallb anchor_ok (groups_of g) && forallb pen_ok (map snd (lines_of g))).
  - rewrite H in H1. by simplify_eq.
  - destruct H1 as (e & H1). rewrite H in H1. discriminate.
Qed.

End FlatWalk.

Lemma length_concat_map {A B} (f : A -> list B) (l : list A) :
  length (concat (map f l)) = sum_list (map (fun a => length (f a)) l).
Proof.
  induction l as [|a l IH]; [done|].
  cbn [map concat sum_list]. rewrite length_app. simpl. by rewrite IH.
Qed.

Lemma sum_list_map_le {A} (f g : A -> nat) (l : list A) :
  (forall a, f a <= g a)%nat ->
  (sum_list (map f l) <= sum_list (map g l))%nat.
Proof.
  intros Hle. induction l as [|a l IH]; simpl; [lia|].
  specialize (Hle a). lia.
Qed.

Lemma sum_list_map_eq {A} (f g : A -> nat) (l : list A) :
  Forall (fun a => f a = g a) l -> sum_list (map f l) = sum_list (map g l).
Proof. induction 1 as [|a l Ha _ IH]; simpl; [done|]. by rewrite Ha, IH. Qed.

(** ** draw_group, nested *)

Section NestedWalk.
Context {RT : Runtime} {PM : PenModel} (anchor_pos : gmap CrdtId Z).

Lemma draw_group_nested_eq inf cs :
  draw_group (mkGroup inf cs) anchor_pos false
  = ('(anchor_x, anchor_y) ← get_anchor (mkGroup inf cs) anchor_pos;
     '(items, groups) ←
       draw_group_nested_loop (fun child => draw_group child anchor_pos false)
                              anchor_x anchor_y cs [] [];
     mret (mkGroupDict (repr_CrdtId (GroupInfo.node_id inf)) "group"
                       items groups (anchor_x, anchor_y))).
Proof. reflexivity. Qed.

Lemma draw_group_nested_loop_group rec ax ay child rest items groups :
  draw_group_nested_loop rec ax ay (CGroup child :: rest) items groups
  = (r ← rec child; draw_group_nested_loop rec ax ay rest items (groups ++ [r])).
Proof. reflexivity. Qed.

Lemma draw_group_nested_loop_line rec ax ay child rest items groups :
  draw_group_nested_loop rec ax ay (CLine child :: rest) items groups
  = (r ← draw_stroke child ax ay false;
     draw_group_nested_loop rec ax ay rest (items ++ [r]) groups).
Proof. reflexivity. Qed.

Lemma draw_group_nested_loop_count parent ax ay cs :
  Forall (on_group (nested_counts anchor_pos)) cs ->
  forall items groups w w' items' groups',
    draw_group_nested_loop (fun child => draw_group child anchor_pos false)
                           ax ay cs items groups w
    = (w', Ok (items', groups')) ->
    (sum_list (map length items')
     + sum_list (map (fun g => count_records g) groups')
     = sum_list (map length items)
       + sum_list (map (fun g => count_records g) groups)
       + sum_list (map (fun gl : Group * Line.t => segment_starts gl.2)
                       (lines_of_children lines_of parent cs)))%nat.
Proof.
  induction cs as [|c cs IHcs]; intros IH items groups w w' items' groups' H.
  - injection H as <- <- <-. simpl. lia.
  - apply Forall_cons in IH as [Hc IH]. specialize (IHcs IH).
    destruct c as [child|l|kind|].
    + rewrite draw_group_nested_loop_group in H.
      unfold mbind, M_bind in H. cbn beta in H.
      destruct (draw_group child anchor_pos false w) as [w1 [d|e]] eqn:E1;
        [|discriminate].
      apply IHcs in H. apply Hc in E1.
      cbn [lines_of_children].
      rewrite ?map_app, ?sum_list_with_app in H |- *. simpl in H. lia.
    + rewrite draw_group_nested_loop_line in H. revert H.
      pose proof (draw_stroke_cases l ax ay false w) as Hs.
      destruct (pen_ok l).
      * rewrite (bind_ok _ _ _ _ _ Hs). intros H. apply IHcs in H.
        cbn [lines_of_children map snd].
        rewrite ?map_app, ?sum_list_with_app in H. simpl in H |- *.
        assert (Hlen : length (stroke_records (pen_of l) ax ay false
                                              (Line.points l) 0 0 0)
                       = segment_starts l)
          by (unfold segment_starts; apply stroke_records_length).
        rewrite Hlen in H. lia.
      * rewrite (bind_raise _ _ _ _ _ Hs). discriminate.
    + by apply IHcs in H.
    + by apply IHcs in H.
Qed.

Lemma draw_group_nested_count g : nested_counts anchor_pos g.
Proof.
  induction g as [inf cs IH] using Group_nested_ind. intros w w' d.
  rewrite draw_group_nested_eq.
  bind_cases w1 a e E1; [|discriminate]. destruct a as [ax ay].
  bind_cases w2 r e E2; [|discriminate]. destruct r as [items groups].
  intros H. injection H as <- <-.
  apply (draw_group_nested_loop_count (mkGroup inf cs)) in E2; [|done].
  cbn [count_records lines_of]. simpl in E2. exact E2.
Qed.

End NestedWalk.

(** C1, as stated, fails: with a pen whose segment length is 2, a line of
    two points yields one point record. *)
Lemma flat_walk_drops_points :
  (draw_group (RT := example_runtime) (PM := pens_every 2)
              root_one_line ∅ true w0).2
  = Ok [PointRec.mk (xx 0) (yy 0) 0 0 0 0 "black" 1%Q 1%Q]
  /\ total_points root_one_line = 2%nat
  /\ ~ (forall (PM : PenModel) root anchor_pos w w' items,
          draw_group (RT := example_runtime) root anchor_pos true w
          = (w', Ok items) ->
          length items = total_points root).
Proof.
  split; [reflexivity|]. split; [reflexivity|].
  intros H.
  specialize (H (pens_every 2) root_one_line ∅ w0 w0 _ eq_refl).
  discriminate H.
Qed.

(** C1 (amended): when the flattened walk of a drawing root returns, the
    number of its point records is the number of segment starts of the lines
    of the tree, one record for each point whose index in its line is a
    multiple of the segment length of the pen; flattening drops and
    duplicates nothing: the nested walk, when it returns, holds as many
    records; the number is never more than the number of points of all the
    lines, and it is that number when the segment length of every pen
    is 1. *)
Theorem flat_walk_point_count {RT : Runtime} {PM : PenModel}
    root anchor_pos w w' items :
  draw_group root anchor_pos true w = (w', Ok items) ->
  length items
  = sum_list (map (fun gl : Group * Line.t => segment_starts gl.2) (lines_of root))
  /\ (forall w1 w1' d,
        draw_group root anchor_pos false w1 = (w1', Ok d) ->
        count_records d = length items)
  /\ (length items <= total_points root)%nat
  /\ (Forall (fun gl : Group * Line.t => Pen.segment_length (pen_of gl.2) = 1)
             (lines_of root) ->
      length items = total_points root).
Proof.
  intros H. apply draw_group_flat_inv in H as (-> & _ & _).
  rewrite length_concat_map.
  assert (Hlen : map (fun gl => length (line_records anchor_pos gl)) (lines_of root)
                 = map (fun gl : Group * Line.t => segment_starts gl.2)
                       (lines_of root)).
  { apply map_ext. intros [g l]. apply line_records_length. }
  rewrite Hlen. split; [done|]. split.
  { intros w1 w1' d Hd. by apply draw_group_nested_count in Hd. }
  unfold total_points. split.
  - apply sum_list_map_le. intros [g l]. apply segment_starts_le.
  - intros Hone. apply sum_list_map_eq.
    eapply Forall_impl; [exact Hone|].
    intros [g l] H1. by apply segment_starts_one.
Qed.

(** With segment length 1 the two points of the line give two records. *)
Lemma flat_walk_point_count_witness :
  length [PointRec.mk (xx 0) (yy 0) 0 0 0 0 "black" 1%Q 1%Q;
          PointRec.mk (xx 100) (yy 100) 100 100 0 0 "black" 1%Q 1%Q]
  = sum_list (map (fun gl : Group * Line.t =>
                     segment_starts (PM := pens_every 1) gl.2)
                  (lines_of root_one_line)).
Proof.
  exact (proj1 (flat_walk_point_count (RT := example_runtime)
                  (PM := pens_every 1) root_one_line ∅ w0 w0 _ eq_refl)).
Defined.

(** ** What the bounding box covers *)

Lemma min_of_le a xs : min_of a xs <= a.
Proof.
  unfold min_of. revert a. induction xs as [|x xs IH]; intros a; simpl; [lia|].
  specialize (IH (Z.min a x)). lia.
Qed.

Lemma min_of_le_elem a xs x : In x xs -> min_of a xs <= x.
Proof.
  unfold min_of. revert a. induction xs as [|x0 xs IH]; intros a Hin; [done|].
  simpl. destruct Hin as [->|Hin].
  - pose proof (min_of_le (Z.min a x) xs) as H. unfold min_of in H. lia.
  - by apply IH.
Qed.

Lemma max_of_ge a xs : a <= max_of a xs.
Proof.
  unfold max_of. revert a. induction xs as [|x xs IH]; intros a; simpl; [lia|].
  specialize (IH (Z.max a x)). lia.
Qed.

Lemma max_of_ge_elem a xs x : In x xs -> x <= max_of a xs.
Proof.
  unfold max_of. revert a. induction xs as [|x0 xs IH]; intros a Hin; [done|].
  simpl. destruct Hin as [->|Hin].
  - pose proof (max_of_ge (Z.max a x) xs) as H. unfold max_of in H. lia.
  - by apply IH.
Qed.

Lemma covers_within a b x y : covers a x y -> within a b -> covers b x y.
Proof.
  destruct a as [[[? ?] ?] ?], b as [[[? ?] ?] ?]. unfold covers, within. lia.
Qed.

Lemma within_trans a b c : within a b -> within b c -> within a c.
Proof.
  destruct a as [[[? ?] ?] ?], b as [[[? ?] ?] ?], c as [[[? ?] ?] ?].
  unfold within. lia.
Qed.

Section BoxCovers.
Context (anchor_pos : gmap CrdtId Z).

Lemma get_bounding_box_loop_covers inf cs :
  Forall (on_group (box_covers_lines anchor_pos)) cs ->
  forall box w w' b,
    get_bounding_box (mkGroup inf cs) anchor_pos box w = (w', Ok b) ->
    within box b
    /\ forall ol p,
         In ol (box_lines_children (box_lines anchor_pos) anchor_pos cs) ->
         In p (Line.points ol.2) ->
         covers b (Point.x p + ol.1.1) (Point.y p + ol.1.2).
Proof.
  induction cs as [|c cs IHcs]; intros IH box w w' b Hb.
  - rewrite get_bounding_box_nil in Hb. injection Hb as <- <-.
    split; [|intros ? ? []].
    destruct box as [[[? ?] ?] ?]. unfold within. lia.
  - apply Forall_cons in IH as [Hc IH]. specialize (IHcs IH).
    destruct box as [[[x_min x_max] y_min] y_max].
    destruct c as [child|l|kind|].
    + rewrite get_bounding_box_group in Hb. revert Hb.
      bind_cases w1 a e E1; [|discriminate].
      apply get_anchor_inv in E1 as (_ & -> & _).
      destruct (anchor_offset child anchor_pos) as [ax ay] eqn:Hoff.
      bind_cases w2 bc e E2; [|discriminate].
      destruct bc as [[[cx_min cx_max] cy_min] cy_max]. intros Hb.
      apply IHcs in Hb as [Hin Hrest].
      apply Hc in E2 as [Hzero Hchild].
      split.
      * eapply within_trans; [|exact Hin]. unfold within. lia.
      * intros ol p Hol Hp. cbn [box_lines_children] in Hol.
        apply in_app_iff in Hol as [Hol|Hol]; [|by apply Hrest].
        apply in_map_iff in Hol as (ol' & <- & Hol').
        rewrite Hoff. cbn [fst snd] in *.
        specialize (Hchild ol' p Hol' Hp).
        eapply covers_within; [|exact Hin].
        unfold covers in *. lia.
    + rewrite get_bounding_box_line in Hb.
      apply IHcs in Hb as [Hin Hrest]. split.
      * eapply within_trans; [|exact Hin]. unfold within.
        pose proof (min_of_le x_min (map Point.x (Line.points l))).
        pose proof (max_of_ge x_max (map Point.x (Line.points l))).
        pose proof (min_of_le y_min (map Point.y (Line.points l))).
        pose proof (max_of_ge y_max (map Point.y (Line.points l))).
        lia.
      * intros ol p Hol Hp. cbn [box_lines_children] in Hol.
        destruct Hol as [<-|Hol]; [|by apply Hrest].
        cbn [fst snd] in *.
        eapply covers_within; [|exact Hin].
        pose proof (min_of_le_elem x_min _ _ (in_map Point.x _ _ Hp)).
        pose proof (max_of_ge_elem x_max _ _ (in_map Point.x _ _ Hp)).
        pose proof (min_of_le_elem y_min _ _ (in_map Point.y _ _ Hp)).
        pose proof (max_of_ge_elem y_max _ _ (in_map Point.y _ _ Hp)).
        unfold covers. lia.
    + rewrite get_bounding_box_skip in Hb by done.
      apply IHcs in Hb. exact Hb.
    + rewrite get_bounding_box_skip in Hb by done.
      apply IHcs in Hb. exact Hb.
Qed.

Lemma get_bounding_box_covers g : box_covers_lines anchor_pos g.
Proof.
  induction g as [inf cs IH] using Group_nested_ind.
  intros box w w' b Hb.
  exact (get_bounding_box_loop_covers inf cs IH box w w' b Hb).
Qed.

End BoxCovers.

(** C4: the flattened walk does not move a stroke by the offsets that the
    bounding box applies to it.  For a line in a group anchored at (200, 100)
    inside a group anchored at (100, 100), the flattened walk moves the point
    (1000, 0) to (1200, 100), by the offset of the inner group alone, while
    the offsets summed from the root are (300, 200), the bounding box
    extends to x = 1300, and the walk that does not flatten keeps the
    dictionary of the inner group, anchored at (200, 100), inside that of
    the outer group, anchored at (100, 100).  For a line in a group without
    anchor inside a group anchored at (-1000, 100), the point (1500, 0) is
    drawn where it is, outside the box (-1000, 702, 0, 1872) that
    [get_bounding_box] computes for the page of the same tree. *)
Lemma flat_walk_not_cumulative :
  (draw_group (RT := example_runtime) (PM := pens_every 1)
              root_nested special_anchors true w0).2
  = Ok [PointRec.mk (xx 1200) (yy 100) 1000 0 200 100 "black" 1%Q 1%Q]
  /\ cumulative_lines special_anchors (0, 0) root_nested
     = [((300, 200), line_of [(1000, 0)])]
  /\ (get_bounding_box root_nested special_anchors default_box w0).2
     = Ok (-702, 1300, 0, 1872)
  /\ (draw_group (RT := example_runtime) (PM := pens_every 1)
                 root_nested special_anchors true w0).2
     <> Ok (concat (map (fun ol : Z * Z * Line.t =>
                           stroke_records (pen_of (PM := pens_every 1) ol.2)
                             ol.1.1 ol.1.2 true (Line.points ol.2) 0 0 0)
                        (cumulative_lines special_anchors (0, 0) root_nested)))
  /\ (draw_group (RT := example_runtime) (PM := pens_every 1)
                 root_nested special_anchors false w0).2
     = Ok (mkGroupDict "CrdtId(0, 1)" "group" []
             [mkGroupDict "CrdtId(0, 1)" "group" []
                [mkGroupDict "CrdtId(0, 1)" "group"
                   [[PointRec.mk (xx 1000) (yy 0) 1000 0 200 100
                                 "black" 1%Q 1%Q]]
                   [] (200, 100)]
                (100, 100)]
             (0, 0))
  /\ (get_bounding_box root_shifted special_anchors default_box w0).2
     = Ok (-1000, 702, 0, 1872)
  /\ (draw_group (RT := example_runtime) (PM := pens_every 1)
                 root_shifted special_anchors true w0).2
     = Ok [PointRec.mk (xx 1500) (yy 0) 1500 0 0 0 "black" 1%Q 1%Q]
  /\ ~ covers (-1000, 702, 0, 1872) (1500 + 0) (0 + 0).
Proof.
  assert (Hd : (draw_group (RT := example_runtime) (PM := pens_every 1)
                  root_nested special_anchors true w0).2
               = Ok [PointRec.mk (xx 1200) (yy 100) 1000 0 200 100
                                 "black" 1%Q 1%Q]).
  { vm_compute. reflexivity. }
  assert (Hc : cumulative_lines special_anchors (0, 0) root_nested
               = [((300, 200), line_of [(1000, 0)])]).
  { vm_compute. reflexivity. }
  split; [exact Hd|]. split; [exact Hc|]. split; [vm_compute; reflexivity|].
  split; [intros H; vm_compute in H; discriminate H|].
  split; [vm_compute; reflexivity|]. split; [vm_compute; reflexivity|].
  split; [vm_compute; reflexivity|].
  unfold covers. lia.
Qed.

(** ** draw_text *)

Lemma heights_before_cons p ps k :
  heights_before (p :: ps) (S k) = line_height p + heights_before ps k.
Proof. reflexivity. Qed.

Lemma lines_from_cons text y0 p ps :
  lines_from text y0 (p :: ps)
  = (if nonempty (str_paragraph p)
     then [line_record text (y0 + line_height p) p] else [])
    ++ lines_from text (y0 + line_height p) ps.
Proof.
  unfold lines_from. rewrite imap_cons. cbn [concat]. f_equal.
  - unfold heights_before. cbn [take map sumZ fold_right]. by rewrite Z.add_0_r.
  - f_equal. apply imap_ext. intros k q _. unfold compose. cbn beta.
    rewrite heights_before_cons. by rewrite Z.add_assoc.
Qed.

Section DrawText.
Context {RT : Runtime}.

Lemma draw_text_loop_spec text ps :
  forall y_offset lines w,
    draw_text_loop text ps y_offset lines w
    = (mkWorld (stream w ++ map svg_fragment (lines_from text y_offset ps))
               (records w),
       Ok (lines ++ lines_from text y_offset ps)).
Proof.
  induction ps as [|p ps IH]; intros y_offset lines w.
  - cbn. rewrite !app_nil_r. by destruct w.
  - cbn [draw_text_loop]. rewrite lines_from_cons.
    destruct (nonempty (str_paragraph p)).
    + erewrite bind_ok by reflexivity. rewrite IH.
      cbn [stream records app map]. by rewrite <- !app_assoc.
    + by rewrite IH.
Qed.

(** [draw_text] never raises; it writes one element for each record it
    returns, in order, and nothing else. *)
Lemma draw_text_spec text w :
  draw_text text w
  = (mkWorld (stream w ++ map svg_fragment (rendered_lines text)) (records w),
     Ok (rendered_lines text)).
Proof. unfold draw_text. by rewrite draw_text_loop_spec. Qed.

End DrawText.

(** ** tree_to_json *)

Section TreeToJson.
Context {RT : Runtime} {PM : PenModel}.

(** The conversion, case by case: an assertion fails below the root
    (nothing is written); or at the root (the text elements are written);
    or a stroke raises (the text elements are written); or the conversion
    returns, having written the text elements and then the JSON
    document. *)
Lemma tree_to_json_cases tree w :
  let anchor_pos := build_anchor_pos (SceneTree.root_text tree) in
  let root := SceneTree.root tree in
  exists w',
    if forallb anchor_ok (descendants root) then
      if anchor_ok root then
        if forallb pen_ok (map snd (lines_of root)) then
          exists doc,
            tree_to_json tree w = (w', Ok tt)
            /\ stream w' = stream w ++ map svg_fragment (tree_lines tree)
                                    ++ [json_dumps_doc doc]
            /\ Doc.text doc = tree_lines tree
            /\ Doc.points doc
               = concat (map (line_records anchor_pos) (lines_of root))
        else
          (exists e, tree_to_json tree w = (w', Raise e))
          /\ stream w' = stream w ++ map svg_fragment (tree_lines tree)
      else
        tree_to_json tree w = (w', Raise AssertionError)
        /\ stream w' = stream w ++ map svg_fragment (tree_lines tree)
    else
      tree_to_json tree w = (w', Raise AssertionError)
      /\ stream w' = stream w.
Proof.
  intros anchor_pos root. unfold tree_to_json.
  fold anchor_pos. fold root.
  erewrite bind_ok by reflexivity. cbn beta.
  match goal with
  | |- context [(get_bounding_box root anchor_pos default_box ≫= _) ?w1] =>
      destruct (get_bounding_box_cases anchor_pos root default_box w1)
        as (w2 & S2 & Hb)
  end.
  cbn [stream] in S2.
  destruct (forallb anchor_ok (descendants root)) eqn:Hdesc.
  2:{ rewrite (bind_raise _ _ _ _ _ Hb). by exists w2. }
  destruct Hb as [[[[x_min x_max] y_min] y_max] Hb].
  rewrite (bind_ok _ _ _ _ _ Hb). cbn beta iota.
  erewrite bind_ok by reflexivity. cbn beta.
  assert (Htext : exists w3,
    (match SceneTree.root_text tree with
     | Some root_text => draw_text root_text
     | None => mret []
     end) (logger DEBUG
       "x_min, x_max, y_min, y_max: %.1f, %.1f, %.1f, %.1f ; scalded %.1f, %.1f, %.1f, %.1f"
       [ArgInt x_min; ArgInt x_max; ArgInt y_min; ArgInt y_max;
        ArgScaled (xx x_min); ArgScaled (xx x_max);
        ArgScaled (yy y_min); ArgScaled (yy y_max)] w2).1
    = (w3, Ok (tree_lines tree))
    /\ stream w3 = stream w ++ map svg_fragment (tree_lines tree)).
  { unfold tree_lines. destruct (SceneTree.root_text tree) as [text|].
    - rewrite draw_text_spec. eexists. split; [reflexivity|].
      cbn [stream fst logger]. by rewrite S2.
    - eexists. split; [reflexivity|]. cbn. by rewrite S2, app_nil_r. }
  destruct Htext as (w3 & Htext & S3).
  rewrite (bind_ok _ _ _ _ _ Htext).
  destruct (draw_group_flat_cases anchor_pos root w3) as (w4 & S4 & Hd).
  rewrite groups_of_eq in Hd. cbn [forallb] in Hd. rewrite Hdesc in Hd.
  rewrite andb_true_r in Hd.
  destruct (anchor_ok root) eqn:Hroot.
  - destruct (forallb pen_ok (map snd (lines_of root))) eqn:Hpens;
      cbn [andb] in Hd.
    + rewrite (bind_ok _ _ _ _ _ Hd). eexists. eexists.
      split; [reflexivity|]. cbn [stream write fst Doc.text Doc.points].
      rewrite S4, S3. by rewrite <- app_assoc.
    + destruct Hd as (e & Hd).
      rewrite (bind_raise _ _ _ _ _ Hd). exists w4.
      split; [by exists e|congruence].
  - cbn [andb] in Hd. destruct Hd as (e & Hd).
    destruct root as [inf cs] eqn:Eroot.
    rewrite draw_group_flat_eq in Hd.
    rewrite (bind_raise _ _ _ _ _ (get_anchor_raise _ _ _ Hroot)) in Hd.
    injection Hd as <- <-.
    rewrite draw_group_flat_eq.
    rewrite (bind_raise _ _ _ _ _
               (bind_raise _ _ _ _ _ (get_anchor_raise _ _ _ Hroot))).
    by exists w3.
Qed.

End TreeToJson.

(** C3, as stated, fails: a paragraph of one blank has an empty trimmed text,
    and yet the conversion writes a text element for it, with an empty
    content, and gives it a record in the document. *)
Lemma blank_paragraph_is_rendered :
  strip (str_paragraph blank_paragraph) = ""
  /\ stream (tree_to_json (RT := example_runtime) (PM := pens_every 1)
                          tree_blank w0).1
     = [svg_text (RT := example_runtime) 0 (-18) "plain" ""; "{}"]
  /\ (draw_text (RT := example_runtime) (Text.mk 0 0 [blank_paragraph]) w0).2
     = Ok [TextRec.mk (xx 0) (yy (-18)) 0 (-18) "" "plain"].
Proof. split; [|split]; vm_compute; reflexivity. Qed.

(** C3 (amended): when the conversion of a tree with a text root returns, it
    has written to the stream one SVG text element for each paragraph whose
    concatenated text, before trimming, is not empty, in paragraph order, and
    then the JSON document, and nothing else; the element and the record of
    the document carry the trimmed text; a paragraph whose text is empty has
    neither an element nor a record, and its line height still counts in the
    offset of the later paragraphs. *)
Theorem tree_to_json_text_elements {RT : Runtime} {PM : PenModel}
    tree text w w' :
  SceneTree.root_text tree = Some text ->
  tree_to_json tree w = (w', Ok tt) ->
  let ps := Text.doc_contents text in
  let lines :=
    concat (imap (fun k p =>
                    if nonempty (str_paragraph p)
                    then [line_record text (TEXT_TOP_Y + heights_before ps (S k)) p]
                    else []) ps) in
  exists doc,
    stream w' = stream w ++ map svg_fragment lines ++ [json_dumps_doc doc]
    /\ Doc.text doc = lines.
Proof.
  intros Htext Hok ps lines.
  destruct (tree_to_json_cases tree w) as (w1 & H).
  assert (Hl : tree_lines tree = lines).
  { unfold tree_lines. by rewrite Htext. }
  rewrite Hl in H.
  destruct (forallb anchor_ok (descendants (SceneTree.root tree)));
    [|destruct H as [H _]; rewrite Hok in H; discriminate].
  destruct (anchor_ok (SceneTree.root tree));
    [|destruct H as [H _]; rewrite Hok in H; discriminate].
  destruct (forallb pen_ok (map snd (lines_of (SceneTree.root tree))));
    [|destruct H as [[e H] _]; rewrite Hok in H; discriminate].
  destruct H as (doc & H & Hs & Ht & _). rewrite Hok in H.
  injection H as <-. by exists doc.
Qed.

(** The conversion of the three-paragraph example: two elements, then the
    document. *)
Lemma tree_to_json_text_elements_witness :
  exists doc,
    stream (tree_to_json (RT := example_runtime) (PM := pens_every 1)
                         tree_three w0).1
    = stream w0
      ++ map (svg_fragment (RT := example_runtime))
             [line_record text_three (TEXT_TOP_Y + 150) 
                (Paragraph.mk [CrdtStr.mk "Title" [(1, 16); (1, 17)]] (0, 0) HEADING);
              line_record text_three (TEXT_TOP_Y + 290)
                (Paragraph.mk [CrdtStr.mk " body " [(1, 21); (1, 22)]] (1, 30) PLAIN)]
      ++ [json_dumps_doc (Runtime := example_runtime) doc]
    /\ Doc.text doc
       = [line_record text_three (TEXT_TOP_Y + 150) 
            (Paragraph.mk [CrdtStr.mk "Title" [(1, 16); (1, 17)]] (0, 0) HEADING);
          line_record text_three (TEXT_TOP_Y + 290)
            (Paragraph.mk [CrdtStr.mk " body " [(1, 21); (1, 22)]] (1, 30) PLAIN)].
Proof.
  refine (tree_to_json_text_elements (RT := example_runtime)
            (PM := pens_every 1) tree_three text_three w0 _ eq_refl _).
  vm_compute. reflexivity.
Defined.

(** ** Missing anchors and failed assertions *)


Lemma forallb_false_In {A} (f : A -> bool) (l : list A) x :
  In x l -> f x = false -> forallb f l = false.
Proof.
  intros Hin Hx. destruct (forallb f l) eqn:E; [|done].
  rewrite forallb_forall in E. rewrite (E x Hin) in Hx. discriminate.
Qed.




(** C10: for every group whose anchor identifier is set and whose anchor
    origin is absent, [get_anchor] raises AssertionError, whatever the table
    holds and without logging anything; the conversion of every tree that
    contains such a group, at the root or below, raises AssertionError and
    does not write the JSON document: only the text elements may have been
    written. *)
Theorem anchor_without_origin_aborts {RT : Runtime} {PM : PenModel} :
  (forall g anchor_pos aid w,
      GroupInfo.anchor_id (info g) = Some aid ->
      GroupInfo.anchor_origin_x (info g) = None ->
      get_anchor g anchor_pos w = (w, Raise AssertionError))
  /\ (forall tree g aid w,
        In g (groups_of (SceneTree.root tree)) ->
        GroupInfo.anchor_id (info g) = Some aid ->
        GroupInfo.anchor_origin_x (info g) = None ->
        exists w',
          tree_to_json tree w = (w', Raise AssertionError)
          /\ (stream w' = stream w
              \/ stream w' = stream w ++ map svg_fragment (tree_lines tree))).
Proof.
  assert (Hbad : forall g aid,
             GroupInfo.anchor_id (info g) = Some aid ->
             GroupInfo.anchor_origin_x (info g) = None -> anchor_ok g = false).
  { intros g aid Hid Hox. unfold anchor_ok. by rewrite Hid, Hox. }
  split.
  - intros g anchor_pos aid w Hid Hox. apply get_anchor_raise. eauto.
  - intros tree g aid w Hin Hid Hox.
    pose proof (Hbad g aid Hid Hox) as Hg.
    rewrite groups_of_eq in Hin.
    destruct (tree_to_json_cases tree w) as (w1 & H). exists w1.
    destruct (forallb anchor_ok (descendants (SceneTree.root tree))) eqn:Hdesc.
    + destruct Hin as [<-|Hin].
      * rewrite Hg in H. destruct H as [H Hs]. auto.
      * rewrite (forallb_false_In _ _ g Hin Hg) in Hdesc. discriminate.
    + destruct H as [H Hs]. auto.
Qed.

(** The tree whose anchored group lacks its origin: the conversion raises
    before anything is written. *)
Lemma anchor_without_origin_aborts_witness :
  get_anchor (mkGroup (broken_info 2 (7, 7)) [CLine (line_of [(1, 2)])])
             (build_anchor_pos None) w0
  = (w0, Raise AssertionError)
  /\ exists w',
       tree_to_json (RT := example_runtime) (PM := pens_every 1)
                    tree_broken_anchor w0 = (w', Raise AssertionError)
       /\ (stream w' = stream w0
           \/ stream w' = stream w0 ++ map (svg_fragment (RT := example_runtime))
                                           (tree_lines tree_broken_anchor)).
Proof.
  split.
  - exact (proj1 (anchor_without_origin_aborts (RT := example_runtime)
                    (PM := pens_every 1))
                 (mkGroup (broken_info 2 (7, 7)) [CLine (line_of [(1, 2)])])
                 (build_anchor_pos None) (7, 7) w0 eq_refl eq_refl).
  - refine (proj2 (anchor_without_origin_aborts (RT := example_runtime)
                     (PM := pens_every 1)) tree_broken_anchor
                  (mkGroup (broken_info 2 (7, 7)) [CLine (line_of [(1, 2)])])
                  (7, 7) w0 _ eq_refl eq_refl).
    right. left. reflexivity.
Defined.

(** ** The anchor table against the rendered text *)

Lemma lines_from_app text y0 ps1 ps2 :
  lines_from text y0 (ps1 ++ ps2)
  = lines_from text y0 ps1
    ++ lines_from text (y0 + sumZ (map line_height ps1)) ps2.
Proof.
  revert y0. induction ps1 as [|p ps1 IH]; intros y0.
  - cbn [app map sumZ fold_right]. rewrite Z.add_0_r. reflexivity.
  - cbn [app]. rewrite !lines_from_cons, IH, <- app_assoc.
    cbn [map sumZ fold_right]. by rewrite Z.add_assoc.
Qed.

Lemma heights_before_S ps k p :
  ps !! k = Some p ->
  heights_before ps (S k) = heights_before ps k + line_height p.
Proof.
  intros Hk. unfold heights_before. rewrite (take_S_r _ _ _ Hk).
  rewrite map_app. cbn [map]. generalize (map line_height (take k ps)).
  intros l. unfold sumZ. induction l as [|z l IH]; cbn [app fold_right] in *; lia.
Qed.

Lemma heights_before_nonneg ps k : 0 <= heights_before ps k.
Proof.
  unfold heights_before. generalize (take k ps). intros l.
  induction l as [|p l IH]; cbn [map sumZ fold_right]; [lia|].
  assert (35 <= line_height p)
    by (unfold line_height; destruct (Paragraph.style p); simpl; lia).
  unfold sumZ in IH. lia.
Qed.

(** C2: for every text root and every paragraph [p] of its ordered paragraph
    sequence, [build_anchor_pos] reaches [p] with the running offset that
    starts at [pos_y + (-88)] and has been advanced by the line heights of
    the paragraphs before [p], and maps the start identifier and the run
    identifiers of [p] to that offset, before it adds the line height of
    [p]; the entry is still there in the returned table for every
    identifier that no later paragraph assigns again; [draw_text] places
    [p], when it renders it, at [pos_y] plus its own offset, which it has
    advanced by the line height of [p] already.  The program adds these
    numbers as floats: when its additions are exact, for a position that
    is a whole number and offsets within 2^53, the [yorg] of the record of
    [p] is the offset recorded for [p] plus the line height of [p]. *)
Theorem anchor_offset_one_line_before {RT : Runtime} text k p :
  let ps := Text.doc_contents text in
  let y0 := Text.pos_y text + TEXT_TOP_Y in
  let recorded := advanced y0 (map line_height (take k ps)) in
  ps !! k = Some p ->
  (fold_left build_anchor_pos_step (take k ps) (special_anchors, y0)).2
  = recorded
  /\ (forall id,
        id ∈ paragraph_ids p ->
        (build_anchor_pos_step
           (fold_left build_anchor_pos_step (take k ps) (special_anchors, y0))
           p).1 !! id = Some recorded)
  /\ (build_anchor_pos_step
        (fold_left build_anchor_pos_step (take k ps) (special_anchors, y0))
        p).2 = recorded + line_height p
  /\ (forall id,
        id ∈ paragraph_ids p ->
        Forall (fun q => id ∉ paragraph_ids q) (drop (S k) ps) ->
        build_anchor_pos (Some text) !! id = Some recorded)
  /\ (nonempty (str_paragraph p) = true ->
      forall w, exists r after,
        (draw_text text w).2
        = Ok (lines_from text TEXT_TOP_Y (take k ps) ++ r :: after)
        /\ TextRec.text r = strip (str_paragraph p)
        /\ TextRec.yorg r
           = Text.pos_y text + (TEXT_TOP_Y + heights_before ps (S k))
        /\ (text_exact text (S k) ->
            held_exactly recorded /\ held_exactly (TextRec.yorg r)
            /\ TextRec.yorg r = recorded + line_height p
            /\ TextRec.yorg r - recorded = line_height p)).
Proof.
  intros ps y0 recorded Hk.
  assert (Hy : (fold_left build_anchor_pos_step (take k ps) (special_anchors, y0)).2
               = recorded).
  { rewrite fold_steps_advanced. reflexivity. }
  split; [exact Hy|]. split; [|split; [|split]].
  - intros id Hid.
    destruct (fold_left build_anchor_pos_step (take k ps) (special_anchors, y0))
      as [ap ypos] eqn:E.
    cbn [snd] in Hy. subst ypos. by apply build_anchor_pos_step_in.
  - destruct (fold_left build_anchor_pos_step (take k ps) (special_anchors, y0))
      as [ap ypos] eqn:E.
    cbn [snd] in Hy. subst ypos. apply build_anchor_pos_step_ypos.
  - intros id Hid Hlater. unfold build_anchor_pos. fold ps y0.
    rewrite <- (take_drop (S k) ps) at 1.
    rewrite fold_left_app, fold_steps_notin by done.
    rewrite (take_S_r _ _ _ Hk), fold_left_app. cbn [fold_left].
    destruct (fold_left build_anchor_pos_step (take k ps) (special_anchors, y0))
      as [ap ypos] eqn:E.
    cbn [snd] in Hy. subst ypos. by apply build_anchor_pos_step_in.
  - intros Hne w. rewrite draw_text_spec. cbn [snd].
    unfold rendered_lines. fold ps.
    assert (Hsplit : lines_from text TEXT_TOP_Y ps
                     = lines_from text TEXT_TOP_Y (take k ps)
                       ++ line_record text
                            (TEXT_TOP_Y + heights_before ps k + line_height p) p
                       :: lines_from text
                            (TEXT_TOP_Y + heights_before ps k + line_height p)
                            (drop (S k) ps)).
    { rewrite <- (take_drop k ps) at 1.
      rewrite lines_from_app, (drop_S _ _ _ Hk), lines_from_cons, Hne.
      reflexivity. }
    rewrite Hsplit. eexists _, _. split; [reflexivity|].
    cbn [line_record TextRec.text TextRec.yorg].
    rewrite (heights_before_S ps k p Hk).
    split; [done|]. split; [lia|].
    unfold text_exact, held_exactly. fold ps. rewrite (heights_before_S ps k p Hk).
    unfold recorded. rewrite advanced_sum. fold (heights_before ps k).
    unfold y0. intros Hex.
    pose proof (heights_before_nonneg ps k).
    assert (35 <= line_height p)
      by (unfold line_height; destruct (Paragraph.style p); simpl; lia).
    unfold TEXT_TOP_Y in *. repeat split; lia.
Qed.

(** The third paragraph of the example: recorded at 10 - 88 + 150 + 70 and
    rendered one line height of 70 lower. *)
Lemma anchor_offset_one_line_before_witness :
  build_anchor_pos (Some text_three) !! (1, 30) = Some 142
  /\ exists r after,
       (draw_text (RT := example_runtime) text_three w0).2
       = Ok (lines_from text_three TEXT_TOP_Y (take 2 (Text.doc_contents text_three))
               ++ r :: after)
       /\ TextRec.yorg r = 142 + 70.
Proof.
  pose proof (anchor_offset_one_line_before (RT := example_runtime) text_three 2
                (Paragraph.mk [CrdtStr.mk " body " [(1, 21); (1, 22)]] (1, 30) PLAIN)
                eq_refl) as (_ & _ & _ & Htable & Hdraw).
  split.
  - apply (Htable (1, 30)).
    + apply elem_of_cons. by left.
    + constructor.
  - destruct (Hdraw eq_refl w0) as (r & after & Hd & _ & _ & Hex).
    exists r, after. split; [exact Hd|].
    apply Hex. unfold text_exact, held_exactly. vm_compute. discriminate.
Defined.

(** ** The dumpers of the command line *)

Section Dumpers.
Context {RT : Runtime} {PM : PenModel} {LIB : Library}.

Lemma json_blocks_loop_from bs : forall b s ss w,
  json_dumps_block b = Ok s ->
  Forall2 (fun b s => json_dumps_block b = Ok s) bs ss ->
  (let '(it, stop) := lookahead_from b bs None in json_blocks_loop it stop) w
  = (mkWorld (stream w ++ joined (s :: ss)) (records w), Ok tt).
Proof.
  induction bs as [|b' bs IH]; intros b s ss w Hb Hbs.
  - apply Forall2_nil_inv_l in Hbs as ->.
    cbn [lookahead_from json_blocks_loop joined].
    rewrite (bind_ok (lift (json_dumps_block b)) _ w w s)
      by (unfold lift; by rewrite Hb).
    reflexivity.
  - apply Forall2_cons_inv_l in Hbs as (s' & ss' & Hb' & Hbs & ->).
    specialize (IH b' s' ss').
    cbn [lookahead_from].
    destruct (lookahead_from b' bs None) as [ys e].
    cbn [json_blocks_loop].
    rewrite (bind_ok (lift (json_dumps_block b)) _ w w s)
      by (unfold lift; by rewrite Hb).
    erewrite bind_ok by reflexivity.
    erewrite bind_ok by reflexivity.
    rewrite IH by done. cbn [stream records joined].
    rewrite <- !app_assoc. by destruct ss'.
Qed.

Lemma json_blocks_all f data bs ss w :
  read_blocks f = (bs, None) ->
  Forall2 (fun b s => json_dumps_block b = Ok s) bs ss ->
  json_blocks f data w
  = (mkWorld (stream w ++ ["[" +:+ newline] ++ joined ss ++ ["]" +:+ newline])
             (records w), Ok tt).
Proof.
  intros Hf Hbs. unfold json_blocks. rewrite Hf.
  erewrite bind_ok by reflexivity.
  destruct bs as [|b bs].
  - apply Forall2_nil_inv_l in Hbs as ->. cbn [lookahead json_blocks_loop].
    rewrite bind_ret. unfold print, write. cbn [stream records joined app].
    by rewrite <- app_assoc.
  - apply Forall2_cons_inv_l in Hbs as (s & ss' & Hb & Hbs & ->).
    cbn [lookahead].
    erewrite bind_ok by (by apply json_blocks_loop_from).
    unfold print, write. cbn [stream records]. by rewrite <- !app_assoc.
Qed.

End Dumpers.

Section Opened.
Context {RT : Runtime} {PM : PenModel} {LIB : Library} {FS : Files}.

(** [convert_rm] opens its input first: when that raises, nothing of the
    target is looked at and nothing is written. *)
Lemma convert_rm_unopened filename to e w :
  open_rb filename = Raise e -> convert_rm filename to w = (w, Raise e).
Proof. intros Ho. unfold convert_rm. apply bind_raise. unfold lift. by rewrite Ho. Qed.

Lemma convert_rm_opened filename f to w :
  open_rb filename = Ok f ->
  convert_rm filename to w
  = (if String.eqb to "blocks" then json_blocks f true
     else if String.eqb to "blocks-data" then json_blocks f false
     else if String.eqb to "json" then
       tree ← lift (read_tree f); tree_to_json tree
     else if String.eqb to "svg" then
       tree ← lift (read_tree f); tree_to_svg tree
     else if String.eqb to "tree" then json_tree f true
     else if String.eqb to "tree-data" then json_tree f false
     else raise (UsageError ("Unknown format " +:+ to))) w.
Proof.
  intros Ho. unfold convert_rm.
  rewrite (bind_ok (lift (open_rb filename)) _ w w f); [reflexivity|].
  unfold lift. by rewrite Ho.
Qed.

Lemma convert_rm_blocks filename f to bs ss w :
  to = "blocks" \/ to = "blocks-data" ->
  open_rb filename = Ok f ->
  read_blocks f = (bs, None) ->
  Forall2 (fun b s => json_dumps_block b = Ok s) bs ss ->
  convert_rm filename to w
  = (mkWorld (stream w ++ ["[" +:+ newline] ++ joined ss ++ ["]" +:+ newline])
             (records w), Ok tt).
Proof.
  intros Hto Ho Hf Hbs. rewrite (convert_rm_opened filename f to w Ho).
  destruct Hto as [-> | ->].
  - by apply (json_blocks_all f true bs).
  - by apply (json_blocks_all f false bs).
Qed.

End Opened.

(** C5: for every input, converting to [blocks] and converting to
    [blocks-data] are the same computation: [depth] is computed from the
    data flag and never used, so [json_blocks] does not depend on the flag;
    when the input opens, the decoder yields the blocks [bs] and each of
    them serializes, to [ss], both write the opening bracket, every
    serialized block in order with a comma between two of them, and the
    closing bracket. *)
Theorem blocks_and_blocks_data_agree
    {RT : Runtime} {PM : PenModel} {LIB : Library} {FS : Files}
    (filename : Path) :
  convert_rm filename "blocks" = convert_rm filename "blocks-data"
  /\ (forall f, json_blocks f true = json_blocks f false)
  /\ (forall to f bs ss w,
        to = "blocks" \/ to = "blocks-data" ->
        open_rb filename = Ok f ->
        read_blocks f = (bs, None) ->
        Forall2 (fun b s => json_dumps_block b = Ok s) bs ss ->
        convert_rm filename to w
        = (mkWorld (stream w ++ ["[" +:+ newline] ++ joined ss
                             ++ ["]" +:+ newline])
                   (records w), Ok tt)).
Proof.
  split; [reflexivity|]. split; [reflexivity|].
  intros to f bs ss w Hto Ho Hf Hbs. by apply (convert_rm_blocks _ f to bs).
Qed.

(** Two blocks, dumped in either mode. *)
Lemma blocks_and_blocks_data_agree_witness :
  convert_rm (RT := example_runtime) (PM := pens_every 1)
             (LIB := example_library) (FS := example_files)
             (".rm", Ok []) "blocks-data" w0
  = (mkWorld ["[" +:+ newline; "{1}" +:+ newline; "," +:+ newline;
              "{2}" +:+ newline; "]" +:+ newline] [], Ok tt).
Proof.
  refine (proj2 (proj2 (blocks_and_blocks_data_agree (RT := example_runtime)
                          (PM := pens_every 1) (LIB := example_library)
                          (FS := example_files) (".rm", Ok [])))
                "blocks-data" [] [1; 2] ["{1}"; "{2}"] w0 _ eq_refl eq_refl _).
  - right. reflexivity.
  - repeat constructor.
Defined.

(** C6: for every parsed scene tree whose drawing root serializes, to [s],
    the tree dump writes the opening bracket, [s], a comma, [s] again and the
    closing bracket, for the target [tree] and for the target [tree-data],
    which [convert_rm] hands to [json_tree] once the input is open:
    the second element is the serialization of the structure of the drawing
    root a second time, and the structure of the text root, which is
    computed, is written nowhere. *)
Theorem tree_dump_repeats_root
    {RT : Runtime} {PM : PenModel} {LIB : Library} {FS : Files}
    (filename : Path) (f : list Byte.byte) tree s data w :
  open_rb filename = Ok f ->
  read_tree f = Ok tree ->
  json_dumps_structure (tree_structure (IChild (CGroup (SceneTree.root tree))))
  = Ok s ->
  json_tree f data w
  = (mkWorld (stream w ++ ["[" +:+ newline; s +:+ newline; "," +:+ newline;
                           s +:+ newline; "]" +:+ newline])
             (records w), Ok tt)
  /\ convert_rm filename "tree" w = json_tree f true w
  /\ convert_rm filename "tree-data" w = json_tree f false w.
Proof.
  intros Ho Hf Hs.
  split; [|split; by rewrite (convert_rm_opened filename f _ w Ho)].
  unfold json_tree.
  rewrite (bind_ok (lift (read_tree f)) _ w w tree)
    by (unfold lift; by rewrite Hf).
  cbn zeta.
  rewrite (bind_ok (lift (json_dumps_structure _)) _ w w s)
    by (unfold lift; by rewrite Hs).
  erewrite bind_ok by reflexivity.
  erewrite bind_ok by reflexivity.
  erewrite bind_ok by reflexivity.
  erewrite (bind_ok (lift (json_dumps_structure _)))
    by (unfold lift; by rewrite Hs).
  erewrite bind_ok by reflexivity.
  unfold print, write. cbn [stream records]. by rewrite <- !app_assoc.
Qed.

(** The dump of the example tree, whose text root is present: the group
    twice, the text root not at all. *)
Lemma tree_dump_repeats_root_witness :
  json_tree (LIB := example_library) [] true w0
  = (mkWorld ["[" +:+ newline; "[group]" +:+ newline; "," +:+ newline;
              "[group]" +:+ newline; "]" +:+ newline] [], Ok tt).
Proof.
  exact (proj1 (tree_dump_repeats_root (RT := example_runtime)
                  (PM := pens_every 1) (LIB := example_library)
                  (FS := example_files) (".rm", Ok [])
                  [] tree_three "[group]" true w0 eq_refl eq_refl eq_refl)).
Defined.

(** ** The entry point: formats *)

Section Formats.
Context {RT : Runtime} {PM : PenModel} {LIB : Library} {FS : Files}.

Lemma convert_rm_unknown filename to w :
  ~ In to known_formats ->
  convert_rm filename to w = (w, Raise (refusal filename to)).
Proof.
  intros Hnot. unfold refusal.
  destruct (open_rb filename) as [f|e] eqn:Ho;
    [|by apply convert_rm_unopened].
  rewrite (convert_rm_opened filename f to w Ho).
  repeat match goal with
  | |- context [String.eqb to ?s] =>
      destruct (String.eqb_spec to s) as [->|_];
      [exfalso; apply Hnot; unfold known_formats; simpl; tauto|]
  end.
  reflexivity.
Qed.

Lemma guess_format_cases (p : Path) :
  (suffix p = ".svg" /\ guess_format p = "svg")
  \/ (In (suffix p) [".rm"; ".pdf"; ".md"; ".markdown"]
      /\ In (guess_format p) ["rm"; "pdf"; "markdown"])
  \/ (~ In (suffix p) [".rm"; ".svg"; ".pdf"; ".md"; ".markdown"]
      /\ guess_format p = "blocks").
Proof.
  unfold guess_format.
  destruct (String.eqb_spec (suffix p) ".rm") as [E|N1].
  { right. left. rewrite E. simpl. tauto. }
  destruct (String.eqb_spec (suffix p) ".svg") as [E|N2].
  { left. done. }
  destruct (String.eqb_spec (suffix p) ".pdf") as [E|N3].
  { right. left. rewrite E. simpl. tauto. }
  destruct (String.eqb_spec (suffix p) ".md") as [E|N4].
  { right. left. rewrite E. simpl. tauto. }
  destruct (String.eqb_spec (suffix p) ".markdown") as [E|N5].
  { right. left. rewrite E. simpl. tauto. }
  right. right. split; [|done]. simpl. intros [?|[?|[?|[?|[?|[]]]]]]; congruence.
Qed.

End Formats.

(** X1: a target format guessed from a file name is never [json], [tree],
    [tree-data] or [blocks-data]; with the guessed target, [convert_rm]
    first opens its input and raises what [open] raises; on an input that
    opens it renders SVG for the suffix [.svg], raises the usage error
    "Unknown format", without reading or writing, for the suffixes [.rm],
    [.pdf], [.md] and [.markdown], and dumps the blocks with their data for
    every other suffix. *)
Theorem guessed_target_converts
    {RT : Runtime} {PM : PenModel} {LIB : Library} {FS : Files}
    (p filename : Path) (w : World) :
  In (guess_format p) ["rm"; "svg"; "pdf"; "markdown"; "blocks"]
  /\ (forall e,
        open_rb filename = Raise e ->
        convert_rm filename (guess_format p) w = (w, Raise e))
  /\ (forall f,
        open_rb filename = Ok f ->
        convert_rm filename (guess_format p) w
        = if decide (suffix p = ".svg")
          then (tree ← lift (read_tree f); tree_to_svg tree) w
          else if decide (In (suffix p) [".rm"; ".pdf"; ".md"; ".markdown"])
               then (w, Raise (UsageError ("Unknown format " +:+ guess_format p)))
               else json_blocks f true w).
Proof.
  split; [|split; [intros e; apply convert_rm_unopened|]].
  { destruct (guess_format_cases p) as [[_ Hg]|[[_ Hg]|[_ Hg]]];
      [rewrite Hg; simpl; tauto|simpl in *; tauto|rewrite Hg; simpl; tauto]. }
  intros f Ho.
  destruct (guess_format_cases p) as [[Hs Hg]|[[Hs Hg]|[Hs Hg]]].
  - rewrite Hg, (convert_rm_opened filename f _ w Ho). by rewrite decide_True.
  - rewrite decide_False
      by (intros E; rewrite E in Hs; simpl in Hs;
          destruct Hs as [?|[?|[?|[?|[]]]]]; discriminate).
    rewrite decide_True by done.
    rewrite convert_rm_unknown; [unfold refusal; by rewrite Ho|].
    unfold known_formats.
    simpl in Hg |- *. destruct Hg as [<-|[<-|[<-|[]]]];
      intros [?|[?|[?|[?|[?|[?|[]]]]]]]; discriminate.
  - rewrite Hg, (convert_rm_opened filename f _ w Ho).
    rewrite decide_False by (intros E; apply Hs; rewrite E; simpl; tauto).
    rewrite decide_False by (intros E; apply Hs; simpl in *; tauto).
    reflexivity.
Qed.

(** The target guessed from [notes.md], on a file that opens and on a
    directory. *)
Lemma guessed_target_converts_witness :
  convert_rm (RT := example_runtime) (PM := pens_every 1)
             (LIB := example_library) (FS := example_files)
             (".rm", Ok []) "markdown" w0
  = (w0, Raise (UsageError "Unknown format markdown"))
  /\ convert_rm (RT := example_runtime) (PM := pens_every 1)
                (LIB := example_library) (FS := example_files)
                (".rm", Raise (OSError "Is a directory")) "markdown" w0
     = (w0, Raise (OSError "Is a directory")).
Proof.
  split.
  - exact (proj2 (proj2 (guessed_target_converts (RT := example_runtime)
                           (PM := pens_every 1) (LIB := example_library)
                           (FS := example_files)
                           (".md", Ok []) (".rm", Ok []) w0)) [] eq_refl).
  - exact (proj1 (proj2 (guessed_target_converts (RT := example_runtime)
                           (PM := pens_every 1) (LIB := example_library)
                           (FS := example_files)
                           (".md", Ok [])
                           (".rm", Raise (OSError "Is a directory")) w0))
                 (OSError "Is a directory") eq_refl).
Defined.

(** X2: for every target format other than [blocks], [blocks-data], [json],
    [svg], [tree] and [tree-data], [convert_rm] raises and neither writes
    nor logs: it raises what [open] raises when the input cannot be opened,
    and the usage error "Unknown format" followed by the format when it
    can. *)
Theorem unknown_target_is_usage_error
    {RT : Runtime} {PM : PenModel} {LIB : Library} {FS : Files}
    (filename : Path) (to : string) (w : World) :
  ~ In to known_formats ->
  convert_rm filename to w
  = (w, Raise match open_rb filename with
              | Ok _ => UsageError ("Unknown format " +:+ to)
              | Raise e => e
              end).
Proof. apply convert_rm_unknown. Qed.

(** The target [pdf] is not known. *)
Lemma unknown_target_is_usage_error_witness :
  convert_rm (RT := example_runtime) (PM := pens_every 1)
             (LIB := example_library) (FS := example_files)
             (".rm", Ok []) "pdf" w0
  = (w0, Raise (UsageError "Unknown format pdf")).
Proof.
  apply (unknown_target_is_usage_error (RT := example_runtime)
           (PM := pens_every 1) (LIB := example_library) (FS := example_files)
           (".rm", Ok []) "pdf" w0).
  unfold known_formats. simpl. intros [?|[?|[?|[?|[?|[?|[]]]]]]]; discriminate.
Defined.

(** X3: whenever [open_output] opens the output in binary mode, that is for
    the targets [pdf] and [rm], [convert_rm] raises, the usage error
    "Unknown format" on an input that opens: every conversion that can
    succeed writes to a text stream. *)
Theorem binary_output_never_converts
    {RT : Runtime} {PM : PenModel} {LIB : Library} {FS : Files}
    (to : string) (output : option Path) (filename : Path) (w : World) :
  binary (open_output to output) = true ->
  (to = "pdf" \/ to = "rm")
  /\ convert_rm filename to w
     = (w, Raise match open_rb filename with
                 | Ok _ => UsageError ("Unknown format " +:+ to)
                 | Raise e => e
                 end).
Proof.
  intros Hb.
  assert (Hto : to = "pdf" \/ to = "rm").
  { unfold open_output in Hb.
    destruct (String.eqb_spec to "pdf") as [->|_]; [by left|].
    destruct (String.eqb_spec to "rm") as [->|_]; [by right|].
    destruct output; discriminate. }
  split; [exact Hto|]. apply convert_rm_unknown. unfold known_formats.
  destruct Hto as [-> | ->]; simpl;
    intros [?|[?|[?|[?|[?|[?|[]]]]]]]; discriminate.
Qed.

(** Standard output for the target [rm] is binary. *)
Lemma binary_output_never_converts_witness :
  convert_rm (RT := example_runtime) (PM := pens_every 1)
             (LIB := example_library) (FS := example_files)
             (".rm", Ok []) "rm" w0
  = (w0, Raise (UsageError "Unknown format rm")).
Proof.
  exact (proj2 (binary_output_never_converts (RT := example_runtime)
                  (PM := pens_every 1) (LIB := example_library)
                  (FS := example_files) "rm" None (".rm", Ok []) w0 eq_refl)).
Defined.

(** ** The entry point: runs *)

Section Runs.
Context {RT : Runtime} {PM : PenModel} {LIB : Library} {FS : Files}.

Lemma convert_all_app in1 in2 to w :
  convert_all (in1 ++ in2) to w
  = match convert_all in1 to w with
    | (w1, Ok _) => convert_all in2 to w1
    | (w1, Raise e) => (w1, Raise e)
    end.
Proof.
  revert w. induction in1 as [|fn in1 IH]; intros w; [reflexivity|].
  cbn [app convert_all]. unfold mbind, M_bind.
  destruct (convert_rm fn to w) as [w1 [[]|e]]; [apply IH|done].
Qed.

Lemma convert_all_blocks input dumps to w :
  to = "blocks" \/ to = "blocks-data" ->
  Forall2 (fun fn ss =>
             exists f bs, open_rb fn = Ok f /\ read_blocks f = (bs, None)
                          /\ Forall2 (fun b s => json_dumps_block b = Ok s) bs ss)
          input dumps ->
  convert_all input to w
  = (mkWorld (stream w
              ++ flat_map (fun ss => ["[" +:+ newline] ++ joined ss
                                       ++ ["]" +:+ newline]) dumps)
             (records w), Ok tt).
Proof.
  intros Hto Hall. revert w.
  induction Hall as [|fn ss input dumps (f & bs & Ho & Hf & Hbs) _ IH]; intros w.
  - cbn. rewrite app_nil_r. by destruct w.
  - cbn [convert_all flat_map].
    rewrite (bind_ok _ _ _ _ _ (convert_rm_blocks fn f to bs ss w Hto Ho Hf Hbs)).
    rewrite IH. cbn [stream records].
    by rewrite <- !app_assoc.
Qed.

End Runs.





(** X6: several input files are converted one after the other into the same
    stream, and the first conversion that raises ends the run: converting
    [in1 ++ in2] is converting [in1] and then, if that returned, [in2]; for
    the block dumps of files that open, decode and serialize, the stream
    receives one bracketed array after the other, with nothing between
    them. *)
Theorem inputs_are_concatenated
    {RT : Runtime} {PM : PenModel} {LIB : Library} {FS : Files}
    (in1 in2 : list Path) (to : string) (w : World) :
  convert_all (in1 ++ in2) to w
  = match convert_all in1 to w with
    | (w1, Ok _) => convert_all in2 to w1
    | (w1, Raise e) => (w1, Raise e)
    end
  /\ (forall dumps,
        to = "blocks" \/ to = "blocks-data" ->
        Forall2 (fun fn ss =>
                   exists f bs, open_rb fn = Ok f /\ read_blocks f = (bs, None)
                     /\ Forall2 (fun b s => json_dumps_block b = Ok s) bs ss)
                (in1 ++ in2) dumps ->
        convert_all (in1 ++ in2) to w
        = (mkWorld (stream w
                    ++ flat_map (fun ss => ["[" +:+ newline] ++ joined ss
                                             ++ ["]" +:+ newline]) dumps)
                   (records w), Ok tt)).
Proof.
  split; [apply convert_all_app|]. intros dumps Hto Hall.
  by apply convert_all_blocks.
Qed.

(** Two files of two blocks each: two arrays, one after the other. *)
Lemma inputs_are_concatenated_witness :
  convert_all (RT := example_runtime) (PM := pens_every 1)
              (LIB := example_library) (FS := example_files)
              ([(".rm", Ok [])] ++ [(".rm", Ok [])]) "blocks" w0
  = (mkWorld ["[" +:+ newline; "{1}" +:+ newline; "," +:+ newline;
              "{2}" +:+ newline; "]" +:+ newline;
              "[" +:+ newline; "{1}" +:+ newline; "," +:+ newline;
              "{2}" +:+ newline; "]" +:+ newline] [], Ok tt).
Proof.
  refine (proj2 (inputs_are_concatenated (RT := example_runtime)
                   (PM := pens_every 1) (LIB := example_library)
                   (FS := example_files) [(".rm", Ok [])] [(".rm", Ok [])]
                   "blocks" w0)
                [["{1}"; "{2}"]; ["{1}"; "{2}"]] _ _).
  - left. reflexivity.
  - cbn [app].
    constructor;
      [exists [], [1; 2]; split; [|split]; [reflexivity..|repeat constructor]|].
    constructor;
      [exists [], [1; 2]; split; [|split]; [reflexivity..|repeat constructor]|].
    constructor.
Defined.



(** ** lookahead and the block dump *)

Lemma last_cons_default {A} (it : list A) (a d : A) :
  List.last (a :: it) d = List.last it a.
Proof.
  revert a d. induction it as [|b it IH]; intros a d; [reflexivity|].
  change (List.last (a :: b :: it) d) with (List.last (b :: it) d).
  by rewrite !IH.
Qed.

Lemma lookahead_from_values {A} (last : A) (it : list A) :
  lookahead_from last it None
  = (map (fun x => (x, true)) (removelast (last :: it))
     ++ [(List.last it last, false)], None).
Proof.
  revert last. induction it as [|val it IH]; intros last; [reflexivity|].
  cbn [lookahead_from]. rewrite IH.
  change (removelast (last :: val :: it)) with (last :: removelast (val :: it)).
  by rewrite (last_cons_default it val last).
Qed.

Lemma lookahead_from_raises {A} (last : A) (it : list A) e :
  lookahead_from last it (Some e)
  = (map (fun x => (x, true)) (removelast (last :: it)), Some e).
Proof.
  revert last. induction it as [|val it IH]; intros last; [reflexivity|].
  cbn [lookahead_from]. rewrite IH.
  change (removelast (last :: val :: it)) with (last :: removelast (val :: it)).
  reflexivity.
Qed.

(** X8: [lookahead] passes the values of an iterator through, in order, each
    with the flag true except the last one, which has the flag false, and
    yields nothing for an empty iterator; when the iterator ends with an
    exception instead, the value pulled last is never yielded: all the
    others are, with the flag true, and then the exception is raised. *)
Theorem lookahead_flags {A} (xs : list A) :
  map fst (lookahead (xs, None)).1 = xs
  /\ map snd (lookahead (xs, None)).1
     = replicate (length xs - 1) true ++ (if xs is [] then [] else [false])
  /\ (lookahead (xs, None)).2 = None
  /\ forall e, lookahead (xs, Some e)
               = (map (fun x => (x, true)) (removelast xs), Some e).
Proof.
  destruct xs as [|x xs].
  - repeat split; reflexivity.
  - cbn [lookahead]. rewrite lookahead_from_values. cbn [fst snd].
    rewrite !map_app, !map_map. cbn [map fst snd].
    assert (Hlen : forall (l : list A),
               l <> [] -> length (removelast l) = (length l - 1)%nat).
    { induction l as [|a [|b l] IH]; intros Hl; [done|reflexivity|].
      change (removelast (a :: b :: l)) with (a :: removelast (b :: l)).
      cbn [length]. rewrite IH by done. cbn [length]. lia. }
    repeat split.
    + rewrite map_id, <- (last_cons_default xs x x). symmetry.
      apply (app_removelast_last x). discriminate.
    + f_equal. rewrite <- (Hlen (x :: xs)) by discriminate.
      generalize (removelast (x :: xs)). intros l.
      induction l as [|a l IH]; [done|]. cbn. by rewrite IH.
    + intros e. apply lookahead_from_raises.
Qed.

Section BlockDump.
Context {RT : Runtime} {PM : PenModel} {LIB : Library}.

(** The blocks already printed, the loop goes on from the next one. *)
Lemma json_blocks_loop_prefix bs : forall b0 s0 ss b rest stop w,
  json_dumps_block b0 = Ok s0 ->
  Forall2 (fun b s => json_dumps_block b = Ok s) bs ss ->
  (let '(it, st) := lookahead_from b0 (bs ++ b :: rest) stop in
   json_blocks_loop it st) w
  = (let '(it, st) := lookahead_from b rest stop in json_blocks_loop it st)
      (mkWorld (stream w ++ with_commas (s0 :: ss)) (records w)).
Proof.
  induction bs as [|b1 bs IH]; intros b0 s0 ss b rest stop w H0 Hbs.
  - apply Forall2_nil_inv_l in Hbs as ->.
    cbn [app lookahead_from].
    destruct (lookahead_from b rest stop) as [ys e].
    cbn [json_blocks_loop].
    rewrite (bind_ok (lift (json_dumps_block b0)) _ w w s0)
      by (unfold lift; by rewrite H0).
    erewrite bind_ok by reflexivity.
    erewrite bind_ok by reflexivity.
    unfold with_commas. cbn [flat_map app stream records].
    by rewrite <- !app_assoc.
  - apply Forall2_cons_inv_l in Hbs as (s1 & ss' & H1 & Hbs & ->).
    cbn [app lookahead_from].
    specialize (IH b1 s1 ss' b rest stop).
    destruct (lookahead_from b1 (bs ++ b :: rest) stop) as [ys e].
    cbn [json_blocks_loop].
    rewrite (bind_ok (lift (json_dumps_block b0)) _ w w s0)
      by (unfold lift; by rewrite H0).
    erewrite bind_ok by reflexivity.
    erewrite bind_ok by reflexivity.
    rewrite IH by done. cbn [stream records].
    unfold with_commas. cbn [flat_map app]. by rewrite <- !app_assoc.
Qed.

Lemma json_blocks_prefix f data bs ss b rest stop w :
  read_blocks f = (bs ++ b :: rest, stop) ->
  Forall2 (fun b s => json_dumps_block b = Ok s) bs ss ->
  json_blocks f data w
  = ((let '(it, st) := lookahead_from b rest stop in json_blocks_loop it st);;
     print "]")
      (mkWorld (stream w ++ ["[" +:+ newline] ++ with_commas ss) (records w)).
Proof.
  intros Hf Hbs. unfold json_blocks. rewrite Hf.
  erewrite bind_ok by reflexivity.
  destruct bs as [|b0 bs].
  - apply Forall2_nil_inv_l in Hbs as ->. cbn [app lookahead with_commas flat_map].
    reflexivity.
  - apply Forall2_cons_inv_l in Hbs as (s0 & ss' & H0 & Hbs & ->).
    cbn [app lookahead]. unfold mbind at 1, M_bind at 1.
    rewrite (json_blocks_loop_prefix bs b0 s0 ss' b rest stop _ H0 Hbs).
    unfold print at 1, write. cbn [stream records].
    rewrite <- !app_assoc. reflexivity.
Qed.

End BlockDump.

(** X9: when the decoder raises after it has yielded some blocks,
    [json_blocks] has printed the opening bracket and every block but the
    last one yielded, each followed by a comma line; the last block yielded
    is never printed, the closing bracket is never printed, and the
    exception of the decoder is raised. *)
Theorem block_dump_decoder_failure
    {RT : Runtime} {PM : PenModel} {LIB : Library}
    (f : list Byte.byte) data bs ss e w :
  read_blocks f = (bs, Some e) ->
  Forall2 (fun b s => json_dumps_block b = Ok s) (removelast bs) ss ->
  json_blocks f data w
  = (mkWorld (stream w ++ ["[" +:+ newline] ++ with_commas ss) (records w),
     Raise e).
Proof.
  intros Hf Hbs. destruct bs as [|b0 bs0].
  - apply Forall2_nil_inv_l in Hbs as ->. unfold json_blocks. rewrite Hf.
    reflexivity.
  - destruct (exists_last (l := b0 :: bs0)) as (bs' & b & E); [done|].
    rewrite E in Hf, Hbs. rewrite removelast_last in Hbs.
    rewrite (json_blocks_prefix f data bs' ss b [] (Some e) w Hf Hbs).
    reflexivity.
Qed.

(** Two blocks and then a failure: the first block, a comma, and no more. *)
Lemma block_dump_decoder_failure_witness :
  json_blocks (LIB := failing_library) [] true w0
  = (mkWorld ["[" +:+ newline; "{1}" +:+ newline; "," +:+ newline] [],
     Raise DecodeFailure).
Proof.
  refine (block_dump_decoder_failure (RT := example_runtime)
            (PM := pens_every 1) (LIB := failing_library)
            [] true [1; 2] ["{1}"] DecodeFailure w0 eq_refl _).
  repeat constructor.
Defined.

(** X10: when a block that [json_blocks] reaches does not serialize, the
    blocks before it have been printed, each followed by a comma line, after
    the opening bracket; the exception of the serializer is raised and the
    closing bracket is never printed.  A block is reached unless it is the
    last one yielded by a decoder that then raises. *)
Theorem block_dump_serializer_failure
    {RT : Runtime} {PM : PenModel} {LIB : Library}
    (f : list Byte.byte) data bs ss b rest stop e w :
  read_blocks f = (bs ++ b :: rest, stop) ->
  Forall2 (fun b s => json_dumps_block b = Ok s) bs ss ->
  json_dumps_block b = Raise e ->
  rest <> [] \/ stop = None ->
  json_blocks f data w
  = (mkWorld (stream w ++ ["[" +:+ newline] ++ with_commas ss) (records w),
     Raise e).
Proof.
  intros Hf Hbs Hb Hreach.
  rewrite (json_blocks_prefix f data bs ss b rest stop w Hf Hbs).
  apply bind_raise.
  destruct rest as [|val rest].
  - destruct Hreach as [Hr| ->]; [done|]. cbn [lookahead_from json_blocks_loop].
    apply bind_raise. unfold lift. by rewrite Hb.
  - cbn [lookahead_from].
    destruct (lookahead_from val rest stop) as [ys e'].
    cbn [json_blocks_loop]. apply bind_raise. unfold lift. by rewrite Hb.
Qed.

(** The second of two blocks does not serialize. *)
Lemma block_dump_serializer_failure_witness :
  json_blocks (LIB := unserializable_library) [] false w0
  = (mkWorld ["[" +:+ newline; "{1}" +:+ newline; "," +:+ newline] [],
     Raise TypeError).
Proof.
  refine (block_dump_serializer_failure (RT := example_runtime)
            (PM := pens_every 1) (LIB := unserializable_library)
            [] false [1] ["{1}"] 2 [] None TypeError w0 eq_refl _ eq_refl _).
  - repeat constructor.
  - right. reflexivity.
Defined.

(** X11: the tree dump writes all or nothing: either [json_tree] returns,
    having written its five lines, or it raises, when the tree does not
    parse or the drawing root does not serialize, and has written and logged
    nothing. *)
Theorem tree_dump_all_or_nothing
    {RT : Runtime} {PM : PenModel} {LIB : Library}
    (f : list Byte.byte) data w :
  (exists s,
      json_tree f data w
      = (mkWorld (stream w ++ ["[" +:+ newline; s +:+ newline; "," +:+ newline;
                               s +:+ newline; "]" +:+ newline])
                 (records w), Ok tt))
  \/ (exists e, json_tree f data w = (w, Raise e)).
Proof.
  unfold json_tree.
  destruct (read_tree f) as [tree|e].
  - erewrite bind_ok by reflexivity. cbn zeta.
    destruct (json_dumps_structure
                (tree_structure (IChild (CGroup (SceneTree.root tree)))))
      as [s|e].
    + left. exists s.
      do 6 (erewrite bind_ok by reflexivity).
      unfold print, write. cbn [stream records]. by rewrite <- !app_assoc.
    + right. exists e. by apply bind_raise.
  - right. exists e. by apply bind_raise.
Qed.

(** ** The bounding box as a hull *)

Lemma min_of_absorb x a xs : Z.min x (min_of a xs) = min_of (Z.min x a) xs.
Proof.
  unfold min_of. revert a. induction xs as [|y xs IH]; intros a; [done|].
  cbn [fold_left]. rewrite IH. f_equal. lia.
Qed.

Lemma max_of_absorb x a xs : Z.max x (max_of a xs) = max_of (Z.max x a) xs.
Proof.
  unfold max_of. revert a. induction xs as [|y xs IH]; intros a; [done|].
  cbn [fold_left]. rewrite IH. f_equal. lia.
Qed.

Lemma min_of_shift a c xs :
  min_of a xs + c = min_of (a + c) (map (fun x => x + c) xs).
Proof.
  unfold min_of. revert a. induction xs as [|y xs IH]; intros a; [done|].
  cbn [fold_left map]. rewrite IH. f_equal. lia.
Qed.

Lemma max_of_shift a c xs :
  max_of a xs + c = max_of (a + c) (map (fun x => x + c) xs).
Proof.
  unfold max_of. revert a. induction xs as [|y xs IH]; intros a; [done|].
  cbn [fold_left map]. rewrite IH. f_equal. lia.
Qed.

Lemma hull_app box m1 m2 : hull box (m1 ++ m2) = hull (hull box m1) m2.
Proof.
  destruct box as [[[x_min x_max] y_min] y_max]. unfold hull, min_of, max_of.
  by rewrite !map_app, !fold_left_app.
Qed.

Lemma hull_points x_min x_max y_min y_max (pts : list Point.t) :
  hull (x_min, x_max, y_min, y_max) (map (fun p => (Point.x p, Point.y p)) pts)
  = (min_of x_min (map Point.x pts), max_of x_max (map Point.x pts),
     min_of y_min (map Point.y pts), max_of y_max (map Point.y pts)).
Proof. unfold hull. by rewrite !map_map. Qed.

(** The box of a nested group, moved and joined: the hull of the offset of
    the group and of its marks, moved. *)
Lemma hull_nested x_min x_max y_min y_max ax ay (ms : list (Z * Z)) :
  hull (x_min, x_max, y_min, y_max)
       ((ax, ay) :: map (fun m : Z * Z => (m.1 + ax, m.2 + ay)) ms)
  = (Z.min x_min (min_of 0 (map fst ms) + ax),
     Z.max x_max (max_of 0 (map fst ms) + ax),
     Z.min y_min (min_of 0 (map snd ms) + ay),
     Z.max y_max (max_of 0 (map snd ms) + ay)).
Proof.
  unfold hull. cbn [map fst snd]. rewrite !map_map. cbn [fst snd].
  rewrite !min_of_shift, !max_of_shift, !min_of_absorb, !max_of_absorb.
  rewrite !map_map. reflexivity.
Qed.

Section Hull.
Context (anchor_pos : gmap CrdtId Z).

Lemma get_bounding_box_loop_hull inf cs :
  Forall (on_group (box_is_hull anchor_pos)) cs ->
  forall box w w' b,
    get_bounding_box (mkGroup inf cs) anchor_pos box w = (w', Ok b) ->
    b = hull box (marks_children (marks anchor_pos) anchor_pos cs).
Proof.
  induction cs as [|c cs IHcs]; intros IH box w w' b Hb.
  - rewrite get_bounding_box_nil in Hb. injection Hb as <- <-.
    by destruct box as [[[? ?] ?] ?].
  - apply Forall_cons in IH as [Hc IH]. specialize (IHcs IH).
    destruct box as [[[x_min x_max] y_min] y_max].
    destruct c as [child|l|kind|].
    + rewrite get_bounding_box_group in Hb. revert Hb.
      bind_cases w1 a e E1; [|discriminate].
      apply get_anchor_inv in E1 as (_ & -> & _).
      destruct (anchor_offset child anchor_pos) as [ax ay] eqn:Hoff.
      bind_cases w2 bc e E2; [|discriminate].
      apply Hc in E2. subst bc. intros Hb. cbn [hull] in Hb.
      apply IHcs in Hb. subst b.
      cbn [marks_children]. rewrite Hoff, hull_app. cbn [fst snd].
      by rewrite hull_nested.
    + rewrite get_bounding_box_line in Hb. apply IHcs in Hb. subst b.
      cbn [marks_children]. by rewrite hull_app, hull_points.
    + rewrite get_bounding_box_skip in Hb by done. by apply IHcs in Hb.
    + rewrite get_bounding_box_skip in Hb by done. by apply IHcs in Hb.
Qed.

Lemma get_bounding_box_hull g : box_is_hull anchor_pos g.
Proof.
  induction g as [inf cs IH] using Group_nested_ind.
  intros box w w' b Hb.
  exact (get_bounding_box_loop_hull inf cs IH box w w' b Hb).
Qed.

End Hull.

Lemma hull_within box ms : within box (hull box ms).
Proof.
  destruct box as [[[x_min x_max] y_min] y_max]. unfold hull, within.
  pose proof (min_of_le x_min (map fst ms)).
  pose proof (max_of_ge x_max (map fst ms)).
  pose proof (min_of_le y_min (map snd ms)).
  pose proof (max_of_ge y_max (map snd ms)). lia.
Qed.

Lemma hull_covers box ms m : In m ms -> covers (hull box ms) m.1 m.2.
Proof.
  intros Hm. destruct box as [[[x_min x_max] y_min] y_max].
  unfold hull, covers.
  pose proof (min_of_le_elem x_min _ _ (in_map fst _ _ Hm)).
  pose proof (max_of_ge_elem x_max _ _ (in_map fst _ _ Hm)).
  pose proof (min_of_le_elem y_min _ _ (in_map snd _ _ Hm)).
  pose proof (max_of_ge_elem y_max _ _ (in_map snd _ _ Hm)). lia.
Qed.

Lemma marks_direct_group anchor_pos inf cs c :
  In (CGroup c) cs ->
  In (anchor_offset c anchor_pos) (marks anchor_pos (mkGroup inf cs)).
Proof.
  intros Hc. cbn [marks]. induction cs as [|c0 cs IH]; [done|].
  destruct Hc as [->|Hc].
  - cbn [marks_children]. by left.
  - destruct c0; cbn [marks_children];
      [right; apply in_or_app; right|apply in_or_app; right| |]; by apply IH.
Qed.

(** X12: when [get_bounding_box] returns, its box is exactly the hull of
    the box it was given and of the marks of the group: the points of the
    lines, each moved by the anchor offsets of the nested groups around it,
    and the anchor offset of every nested group, moved likewise; and it has
    written nothing to the stream. *)
Theorem bounding_box_is_hull (anchor_pos : gmap CrdtId Z) g box w w' b :
  get_bounding_box g anchor_pos box w = (w', Ok b) ->
  b = hull box (marks anchor_pos g) /\ stream w' = stream w.
Proof.
  intros Hb. split; [by apply (get_bounding_box_hull anchor_pos g box w w')|].
  destruct (get_bounding_box_cases anchor_pos g box w) as (w1 & S1 & H1).
  destruct (forallb anchor_ok (descendants g)).
  - destruct H1 as [b1 H1]. rewrite Hb in H1. by simplify_eq.
  - rewrite Hb in H1. discriminate.
Qed.

(** The box of the nested example: the screen, stretched to x = 1300. *)
Lemma bounding_box_is_hull_witness :
  (-702, 1300, 0, 1872) = hull default_box (marks special_anchors root_nested).
Proof.
  refine (proj1 (bounding_box_is_hull special_anchors root_nested default_box
                   w0 (get_bounding_box root_nested special_anchors
                                        default_box w0).1 _ _)).
  vm_compute. reflexivity.
Defined.

(** X13: the bounding box is never smaller than the box it starts from: with
    the default argument it contains the whole screen, from -702 to 702 and
    from 0 to 1872, whatever the tree holds. *)
Theorem bounding_box_contains_screen
    (anchor_pos : gmap CrdtId Z) root w w' x_min x_max y_min y_max :
  get_bounding_box root anchor_pos default_box w
  = (w', Ok (x_min, x_max, y_min, y_max)) ->
  x_min <= -702 /\ 702 <= x_max /\ y_min <= 0 /\ 1872 <= y_max.
Proof.
  intros Hb. apply (get_bounding_box_hull anchor_pos root) in Hb.
  pose proof (hull_within default_box (marks anchor_pos root)) as Hw.
  rewrite <- Hb in Hw. exact Hw.
Qed.

(** The box of the root with one line from (0, 0) to (100, 100). *)
Lemma bounding_box_contains_screen_witness :
  -702 <= -702 /\ 702 <= 702 /\ 0 <= 0 /\ 1872 <= 1872.
Proof.
  exact (bounding_box_contains_screen ∅ root_one_line w0 w0
           (-702) 702 0 1872 eq_refl).
Defined.

(** X14: a nested group stretches the box of its parent to its own anchor
    offset even when it has no content: the box that [get_bounding_box]
    returns for a group covers the anchor offset of each of its child
    groups. *)
Theorem bounding_box_covers_group_anchor
    (anchor_pos : gmap CrdtId Z) inf cs c box w w' b :
  get_bounding_box (mkGroup inf cs) anchor_pos box w = (w', Ok b) ->
  In (CGroup c) cs ->
  covers b (anchor_offset c anchor_pos).1 (anchor_offset c anchor_pos).2.
Proof.
  intros Hb Hc. apply (get_bounding_box_hull anchor_pos) in Hb. subst b.
  apply hull_covers. by apply marks_direct_group.
Qed.

(** The empty group anchored at (5000, 100) stretches the screen box. *)
Lemma bounding_box_covers_group_anchor_witness :
  covers (-702, 5000, 0, 1872) 5000 100.
Proof.
  exact (bounding_box_covers_group_anchor special_anchors (plain_info 1)
           [CGroup (mkGroup (anchored_info 2 anchor_b 5000) [])]
           (mkGroup (anchored_info 2 anchor_b 5000) []) default_box w0
           (get_bounding_box root_empty_anchor special_anchors default_box w0).1
           (-702, 5000, 0, 1872) eq_refl (or_introl eq_refl)).
Defined.

(** ** The rendered text *)

Lemma line_height_positive p : 35 <= line_height p.
Proof. unfold line_height. destruct (Paragraph.style p); simpl; lia. Qed.

Lemma lines_from_below text y0 ps :
  Forall (fun r => Text.pos_y text + y0 + 35 <= TextRec.yorg r
                   /\ TextRec.xorg r = Text.pos_x text)
         (lines_from text y0 ps).
Proof.
  revert y0. induction ps as [|p ps IH]; intros y0.
  - constructor.
  - rewrite lines_from_cons. apply Forall_app. split.
    + destruct (nonempty (str_paragraph p)); repeat constructor.
      cbn [line_record TextRec.yorg]. pose proof (line_height_positive p). lia.
    + eapply Forall_impl; [apply IH|]. intros r [Hy Hx]. split; [|done].
      pose proof (line_height_positive p). lia.
Qed.

Lemma lines_from_within text y0 ps :
  Forall (fun r => Text.pos_y text + y0 <= TextRec.yorg r
                   /\ TextRec.yorg r
                      <= Text.pos_y text + y0 + sumZ (map line_height ps))
         (lines_from text y0 ps).
Proof.
  revert y0. induction ps as [|p ps IH]; intros y0.
  - constructor.
  - rewrite lines_from_cons. cbn [map sumZ fold_right].
    pose proof (line_height_positive p) as Hp.
    assert (Hs : 0 <= sumZ (map line_height ps)).
    { clear. induction ps as [|q ps IH]; cbn [map sumZ fold_right]; [lia|].
      pose proof (line_height_positive q). unfold sumZ in IH. lia. }
    unfold sumZ in *. apply Forall_app. split.
    + destruct (nonempty (str_paragraph p)); repeat constructor;
        cbn [line_record TextRec.yorg]; lia.
    + eapply Forall_impl; [apply IH|]. intros r [Hy Hx]. cbn beta. lia.
Qed.

Lemma lines_from_sorted text y0 ps :
  StronglySorted Z.lt (map TextRec.yorg (lines_from text y0 ps)).
Proof.
  revert y0. induction ps as [|p ps IH]; intros y0.
  - constructor.
  - rewrite lines_from_cons.
    destruct (nonempty (str_paragraph p)); cbn [app map]; [|apply IH].
    constructor; [apply IH|].
    apply Forall_forall. intros y Hy.
    apply list_elem_of_In, in_map_iff in Hy as (r & <- & Hr).
    pose proof (lines_from_below text (y0 + line_height p) ps) as Hb.
    rewrite Forall_forall in Hb. apply list_elem_of_In in Hr.
    destruct (Hb r Hr) as [Hlow _].
    cbn [line_record TextRec.yorg]. lia.
Qed.

Lemma lines_from_length text y0 ps :
  length (lines_from text y0 ps)
  = length (List.filter (fun p => nonempty (str_paragraph p)) ps).
Proof.
  revert y0. induction ps as [|p ps IH]; intros y0; [reflexivity|].
  rewrite lines_from_cons, length_app, IH. cbn [List.filter].
  by destruct (nonempty (str_paragraph p)).
Qed.

Lemma StronglySorted_lt_le (l : list Z) :
  StronglySorted Z.lt l -> StronglySorted Z.le l.
Proof.
  induction 1 as [|y l _ IH Hall]; constructor; [exact IH|].
  eapply Forall_impl; [exact Hall|]. intros z Hz. cbn beta in Hz. lia.
Qed.

(** X15: [draw_text] never raises and does not log; it returns one record
    for each paragraph whose text is not empty and writes one chunk for each
    record; every record is at the x of the text item, and no record is
    above the one before it.  The program adds the offsets to the position
    of the text as floats: when these additions are exact, every record is
    at least 35 units below the top offset [pos_y - 88] and the records are
    in strictly increasing order of their y. *)
Theorem draw_text_lines_descend {RT : Runtime} (text : Text.t) (w : World) :
  exists lines w',
    draw_text text w = (w', Ok lines)
    /\ records w' = records w
    /\ length lines
       = length (List.filter (fun p => nonempty (str_paragraph p))
                             (Text.doc_contents text))
    /\ length (stream w') = (length (stream w) + length lines)%nat
    /\ Forall (fun r => TextRec.xorg r = Text.pos_x text) lines
    /\ StronglySorted Z.le (map TextRec.yorg lines)
    /\ (text_exact text (length (Text.doc_contents text)) ->
        Forall (fun r => held_exactly (TextRec.yorg r)
                         /\ Text.pos_y text + TEXT_TOP_Y + 35 <= TextRec.yorg r)
               lines
        /\ StronglySorted Z.lt (map TextRec.yorg lines)).
Proof.
  eexists _, _. split; [apply draw_text_spec|]. cbn [records stream].
  split; [done|]. split; [apply lines_from_length|].
  split; [by rewrite length_app, length_map|].
  split; [eapply Forall_impl; [apply lines_from_below|]; by intros r [? ?]|].
  split; [apply StronglySorted_lt_le, lines_from_sorted|].
  intros Hex. split; [|apply lines_from_sorted].
  unfold rendered_lines.
  pose proof (lines_from_within text TEXT_TOP_Y (Text.doc_contents text)) as Hin.
  pose proof (lines_from_below text TEXT_TOP_Y (Text.doc_contents text)) as Hlow.
  rewrite Forall_forall in Hin, Hlow. apply Forall_forall. intros r Hr.
  destruct (Hin r Hr) as [Hge Hle]. destruct (Hlow r Hr) as [Hb _].
  split; [|exact Hb].
  unfold text_exact, held_exactly, heights_before in Hex.
  rewrite firstn_all in Hex. unfold held_exactly, TEXT_TOP_Y in *. lia.
Qed.

(** The three paragraphs of the example, two of which have a text: the
    records at 72 and 212, below 10 - 88 + 35. *)
Lemma draw_text_lines_descend_witness :
  exists lines w',
    draw_text (RT := example_runtime) text_three w0 = (w', Ok lines)
    /\ StronglySorted Z.lt (map TextRec.yorg lines).
Proof.
  destruct (draw_text_lines_descend (RT := example_runtime) text_three w0)
    as (lines & w' & Hd & _ & _ & _ & _ & _ & Hex).
  exists lines, w'. split; [exact Hd|].
  apply Hex. unfold text_exact, held_exactly. vm_compute. discriminate.
Defined.

(** ** Groups anchored in the text *)

Lemma build_anchor_pos_last text k p id :
  Text.doc_contents text !! k = Some p ->
  id ∈ paragraph_ids p ->
  Forall (fun q => id ∉ paragraph_ids q) (drop (S k) (Text.doc_contents text)) ->
  build_anchor_pos (Some text) !! id
  = Some (advanced (Text.pos_y text + TEXT_TOP_Y)
                   (map line_height (take k (Text.doc_contents text)))).
Proof.
  intros Hk Hid Hlater. unfold build_anchor_pos.
  rewrite <- (take_drop (S k) (Text.doc_contents text)) at 1.
  rewrite fold_left_app, fold_steps_notin by done.
  rewrite (take_S_r _ _ _ Hk), fold_left_app. cbn [fold_left].
  pose proof (fold_steps_advanced (take k (Text.doc_contents text))
                (special_anchors, Text.pos_y text + TEXT_TOP_Y)) as Hy.
  destruct (fold_left build_anchor_pos_step (take k (Text.doc_contents text))
                      (special_anchors, Text.pos_y text + TEXT_TOP_Y))
    as [ap ypos].
  cbn [snd] in Hy. subst ypos. by apply build_anchor_pos_step_in.
Qed.

Lemma sumZ_heights_nonneg ps : 0 <= sumZ (map line_height ps).
Proof.
  induction ps as [|p ps IH]; cbn [map sumZ fold_right]; [lia|].
  pose proof (line_height_positive p). unfold sumZ in IH. lia.
Qed.

Lemma fold_steps_lookup_text ps st id :
  Exists (fun p => id ∈ paragraph_ids p) ps ->
  exists y, (fold_left build_anchor_pos_step ps st).1 !! id = Some y
            /\ st.2 <= y.
Proof.
  revert st. induction ps as [|p ps IH]; intros st Hex; [inversion Hex|].
  cbn [fold_left].
  destruct (decide (Exists (fun q => id ∈ paragraph_ids q) ps)) as [Hl|Hl].
  - destruct (IH (build_anchor_pos_step st p) Hl) as (y & Hy & Hle).
    exists y. split; [done|]. destruct st as [ap ypos].
    rewrite build_anchor_pos_step_ypos in Hle. cbn [snd].
    pose proof (line_height_positive p). lia.
  - apply Exists_cons in Hex as [Hp|Hex]; [|done].
    apply not_Exists_Forall in Hl; [|intros q; apply _].
    exists st.2. split; [|lia].
    rewrite fold_steps_notin by done.
    destruct st as [ap ypos]. by apply build_anchor_pos_step_in.
Qed.

(** X16: a group anchored at an identifier of a paragraph of the text root,
    which no later paragraph carries, and with an anchor origin, is placed
    by [get_anchor], with the table of [build_anchor_pos], at its anchor
    origin and at the offset recorded for the paragraph: the running offset
    that starts at [pos_y + (-88)], advanced by the line heights of the
    paragraphs before it, one after the other; the call logs at the debug
    level and writes nothing. *)
Theorem text_anchor_resolves text k p id g ox w :
  Text.doc_contents text !! k = Some p ->
  id ∈ paragraph_ids p ->
  Forall (fun q => id ∉ paragraph_ids q) (drop (S k) (Text.doc_contents text)) ->
  GroupInfo.anchor_id (info g) = Some id ->
  GroupInfo.anchor_origin_x (info g) = Some ox ->
  let y := advanced (Text.pos_y text + TEXT_TOP_Y)
                    (map line_height (take k (Text.doc_contents text))) in
  get_anchor g (build_anchor_pos (Some text)) w
  = (mkWorld (stream w)
             (records w
              ++ [mkLogRecord DEBUG "Group anchor: %s -> y=%.1f (scalded y=%.1f)"
                              [ArgId id; ArgInt y; ArgScaled (yy y)]]),
     Ok (ox, y)).
Proof.
  intros Hk Hid Hlater Ha Hox y. unfold get_anchor.
  rewrite Ha, Hox, (build_anchor_pos_last text k p id Hk Hid Hlater).
  reflexivity.
Qed.

(** A group anchored at the start of the third paragraph of the example. *)
Lemma text_anchor_resolves_witness :
  get_anchor (mkGroup (anchored_info 2 (1, 30) 12) []) 
             (build_anchor_pos (Some text_three)) w0
  = (mkWorld [] [mkLogRecord DEBUG "Group anchor: %s -> y=%.1f (scalded y=%.1f)"
                             [ArgId (1, 30); ArgInt 142; ArgScaled (yy 142)]],
     Ok (12, 142)).
Proof.
  refine (text_anchor_resolves text_three 2
            (Paragraph.mk [CrdtStr.mk " body " [(1, 21); (1, 22)]] (1, 30) PLAIN)
            (1, 30) (mkGroup (anchored_info 2 (1, 30) 12) []) 12 w0
            eq_refl _ _ eq_refl eq_refl).
  - apply elem_of_cons. by left.
  - constructor.
Defined.

(** X17: no identifier of the text root is unknown: for a group anchored at
    the start identifier or at a run identifier of any paragraph, and with
    an anchor origin, [get_anchor] with the table of [build_anchor_pos]
    returns without a warning, with one debug record, at an offset that is
    not above the top of the text, [pos_y - 88]. *)
Theorem text_anchor_is_known text p id g ox w :
  In p (Text.doc_contents text) ->
  id ∈ paragraph_ids p ->
  GroupInfo.anchor_id (info g) = Some id ->
  GroupInfo.anchor_origin_x (info g) = Some ox ->
  exists y,
    Text.pos_y text + TEXT_TOP_Y <= y
    /\ get_anchor g (build_anchor_pos (Some text)) w
       = (mkWorld (stream w)
                  (records w
                   ++ [mkLogRecord DEBUG
                         "Group anchor: %s -> y=%.1f (scalded y=%.1f)"
                         [ArgId id; ArgInt y; ArgScaled (yy y)]]),
          Ok (ox, y)).
Proof.
  intros Hp Hid Ha Hox.
  destruct (fold_steps_lookup_text (Text.doc_contents text)
              (special_anchors, Text.pos_y text + TEXT_TOP_Y) id)
    as (y & Hy & Hle).
  { apply Exists_exists. exists p. split; [by apply list_elem_of_In|done]. }
  exists y. split; [exact Hle|].
  unfold get_anchor. rewrite Ha, Hox. unfold build_anchor_pos. by rewrite Hy.
Qed.

(** A group anchored at a run identifier of the first paragraph. *)
Lemma text_anchor_is_known_witness :
  exists y,
    Text.pos_y text_three + TEXT_TOP_Y <= y
    /\ get_anchor (mkGroup (anchored_info 2 (1, 17) 12) [])
                  (build_anchor_pos (Some text_three)) w0
       = (mkWorld (stream w0)
                  (records w0
                   ++ [mkLogRecord DEBUG
                         "Group anchor: %s -> y=%.1f (scalded y=%.1f)"
                         [ArgId (1, 17); ArgInt y; ArgScaled (yy y)]]),
          Ok (12, y)).
Proof.
  refine (text_anchor_is_known text_three
            (Paragraph.mk [CrdtStr.mk "Title" [(1, 16); (1, 17)]] (0, 0) HEADING)
            (1, 17) (mkGroup (anchored_info 2 (1, 17) 12) []) 12 w0
            _ _ eq_refl eq_refl).
  - left. reflexivity.
  - apply (bool_decide_unpack _). vm_compute. exact I.
Defined.

(** ** The records of a stroke *)

Section StrokeRecords.
Context {RT : Runtime} {PM : PenModel}.

Lemma stroke_records_sublist pen ax ay fl pts k lw sw :
  sublist (map (fun r => (PointRec.xorg r, PointRec.yorg r))
               (stroke_records pen ax ay fl pts k lw sw))
          (map (fun p => (Point.x p, Point.y p)) pts).
Proof.
  revert k lw sw. induction pts as [|p pts IH]; intros k lw sw.
  - constructor.
  - cbn [stroke_records map].
    destruct (Z.eqb (k `mod` Pen.segment_length pen) 0).
    + cbn [map PointRec.xorg PointRec.yorg]. apply sublist_skip, IH.
    + apply sublist_cons, IH.
Qed.

Lemma stroke_records_anchor pen ax ay fl pts k lw sw :
  Forall (fun r => PointRec.anchorx r = ax /\ PointRec.anchory r = ay)
         (stroke_records pen ax ay fl pts k lw sw).
Proof.
  revert k lw sw. induction pts as [|p pts IH]; intros k lw sw.
  - constructor.
  - cbn [stroke_records].
    destruct (Z.eqb (k `mod` Pen.segment_length pen) 0); [|apply IH].
    constructor; [done|apply IH].
Qed.

Lemma stroke_records_modes pen ax ay pts k lw sw :
  Forall2 (fun rt rf =>
             PointRec.xorg rt = PointRec.xorg rf
             /\ PointRec.yorg rt = PointRec.yorg rf
             /\ PointRec.anchorx rt = PointRec.anchorx rf
             /\ PointRec.anchory rt = PointRec.anchory rf
             /\ PointRec.color rt = PointRec.color rf
             /\ PointRec.width rt = PointRec.width rf
             /\ PointRec.opacity rt = PointRec.opacity rf
             /\ PointRec.x rt = xx (PointRec.xorg rt + ax)
             /\ PointRec.y rt = yy (PointRec.yorg rt + ay)
             /\ PointRec.x rf = xx (PointRec.xorg rf)
             /\ PointRec.y rf = yy (PointRec.yorg rf))
          (stroke_records pen ax ay true pts k lw sw)
          (stroke_records pen ax ay false pts k lw sw).
Proof.
  revert k lw sw. induction pts as [|p pts IH]; intros k lw sw.
  - constructor.
  - cbn [stroke_records].
    destruct (Z.eqb (k `mod` Pen.segment_length pen) 0); [|apply IH].
    constructor; [by cbn|apply IH].
Qed.

Lemma stroke_records_zero_offset pen pts k lw sw :
  stroke_records pen 0 0 true pts k lw sw
  = stroke_records pen 0 0 false pts k lw sw.
Proof.
  revert k lw sw. induction pts as [|p pts IH]; intros k lw sw; [done|].
  cbn [stroke_records]. rewrite !Z.add_0_r, !IH. reflexivity.
Qed.

End StrokeRecords.

(** X18: [draw_stroke] has no effect on the stream or the log; when it
    returns, the original positions of its records are a subsequence of the
    points of the line, in the order of the line and without repetition,
    every record carries the anchor offset it was called with, and the first
    point of a line that has one always gets a record. *)
Theorem stroke_records_are_a_subsequence {RT : Runtime} {PM : PenModel}
    l ax ay fl w w' recs :
  draw_stroke l ax ay fl w = (w', Ok recs) ->
  w' = w
  /\ sublist (map (fun r => (PointRec.xorg r, PointRec.yorg r)) recs)
             (map (fun p => (Point.x p, Point.y p)) (Line.points l))
  /\ Forall (fun r => PointRec.anchorx r = ax /\ PointRec.anchory r = ay) recs
  /\ (forall p pts,
        Line.points l = p :: pts ->
        exists r rest,
          recs = r :: rest
          /\ PointRec.xorg r = Point.x p /\ PointRec.yorg r = Point.y p).
Proof.
  rewrite draw_stroke_cases. intros H.
  destruct (pen_ok l) eqn:Hok; [|discriminate].
  injection H as <- <-.
  split; [done|]. split; [apply stroke_records_sublist|].
  split; [apply stroke_records_anchor|].
  intros p pts Hpts. unfold pen_ok in Hok. unfold pen_of. rewrite Hpts in *.
  destruct (Pen_create (Line.tool l) (Line.color l) (Line.thickness_scale l))
    as [pen|e]; [|discriminate].
  apply negb_true_iff, Z.eqb_neq in Hok.
  cbn [stroke_records]. rewrite Z.mod_0_l by done. cbn.
  eexists _, _. split; [reflexivity|]. by cbn.
Qed.

(** With a segment every two points, the line of two points gives the
    record of its first point. *)
Lemma stroke_records_are_a_subsequence_witness :
  sublist (map (fun r => (PointRec.xorg r, PointRec.yorg r))
               [PointRec.mk (xx 0) (yy 0) 0 0 0 0 "black" 1%Q 1%Q])
          (map (fun p => (Point.x p, Point.y p))
               (Line.points (line_of [(0, 0); (100, 100)]))).
Proof.
  exact (proj1 (proj2 (stroke_records_are_a_subsequence
                         (RT := example_runtime) (PM := pens_every 2)
                         (line_of [(0, 0); (100, 100)]) 0 0 true w0 w0 _
                         eq_refl))).
Defined.

(** X19: the flag [flatten] of [draw_stroke] only moves the scaled position:
    with and without it the records agree, one for one, on the original
    position, the anchor offset, the colour, the width and the opacity; the
    scaled position is that of the original moved by the anchor offset with
    the flag, and of the original itself without; at the anchor offset
    (0, 0) the two calls are the same. *)
Theorem flatten_only_moves_scaled_position {RT : Runtime} {PM : PenModel}
    l ax ay w :
  draw_stroke l 0 0 true w = draw_stroke l 0 0 false w
  /\ forall wt wf recs_t recs_f,
       draw_stroke l ax ay true w = (wt, Ok recs_t) ->
       draw_stroke l ax ay false w = (wf, Ok recs_f) ->
       Forall2 (fun rt rf =>
                  PointRec.xorg rt = PointRec.xorg rf
                  /\ PointRec.yorg rt = PointRec.yorg rf
                  /\ PointRec.anchorx rt = PointRec.anchorx rf
                  /\ PointRec.anchory rt = PointRec.anchory rf
                  /\ PointRec.color rt = PointRec.color rf
                  /\ PointRec.width rt = PointRec.width rf
                  /\ PointRec.opacity rt = PointRec.opacity rf
                  /\ PointRec.x rt = xx (PointRec.xorg rt + ax)
                  /\ PointRec.y rt = yy (PointRec.yorg rt + ay)
                  /\ PointRec.x rf = xx (PointRec.xorg rf)
                  /\ PointRec.y rf = yy (PointRec.yorg rf))
               recs_t recs_f.
Proof.
  split.
  - rewrite !draw_stroke_cases. by rewrite stroke_records_zero_offset.
  - intros wt wf recs_t recs_f. rewrite !draw_stroke_cases.
    destruct (pen_ok l); [|discriminate].
    intros Ht Hf. injection Ht as <- <-. injection Hf as <- <-.
    apply stroke_records_modes.
Qed.

(** The line of two points at the offset (100, 200), in both modes. *)
Lemma flatten_only_moves_scaled_position_witness :
  Forall2 (fun rt rf =>
             PointRec.xorg rt = PointRec.xorg rf
             /\ PointRec.yorg rt = PointRec.yorg rf
             /\ PointRec.anchorx rt = PointRec.anchorx rf
             /\ PointRec.anchory rt = PointRec.anchory rf
             /\ PointRec.color rt = PointRec.color rf
             /\ PointRec.width rt = PointRec.width rf
             /\ PointRec.opacity rt = PointRec.opacity rf
             /\ PointRec.x rt = xx (PointRec.xorg rt + 100)
             /\ PointRec.y rt = yy (PointRec.yorg rt + 200)
             /\ PointRec.x rf = xx (PointRec.xorg rf)
             /\ PointRec.y rf = yy (PointRec.yorg rf))
          [PointRec.mk (xx 100) (yy 200) 0 0 100 200 "black" 1%Q 1%Q;
           PointRec.mk (xx 200) (yy 300) 100 100 100 200 "black" 1%Q 1%Q]
          [PointRec.mk (xx 0) (yy 0) 0 0 100 200 "black" 1%Q 1%Q;
           PointRec.mk (xx 100) (yy 100) 100 100 100 200 "black" 1%Q 1%Q].
Proof.
  exact (proj2 (flatten_only_moves_scaled_position (RT := example_runtime)
                  (PM := pens_every 1) (line_of [(0, 0); (100, 100)])
                  100 200 w0) w0 w0 _ _ eq_refl eq_refl).
Defined.

(** ** The document of the conversion *)

Lemma get_bounding_box_stream anchor_pos g box w w' b :
  get_bounding_box g anchor_pos box w = (w', Ok b) -> stream w' = stream w.
Proof.
  intros Hb.
  destruct (get_bounding_box_cases anchor_pos g box w) as (w1 & S1 & H1).
  destruct (forallb anchor_ok (descendants g)).
  - destruct H1 as [b1 H1]. rewrite Hb in H1. by simplify_eq.
  - rewrite Hb in H1. discriminate.
Qed.

(** X20: when [tree_to_json] returns, what it has written is determined by
    the tree: the text elements, then the JSON of the document whose box is
    the hull of the screen and of the marks of the drawing root; [page]
    holds the scaled span (maximum minus minimum plus one) and the scaled
    minimum corner, [pageOrg] holds under [width] and [height] the maxima
    themselves, which are at least 702 and 1872, and under [x] and [y] the
    minima, at most -702 and 0; [text] holds the rendered lines and
    [points] the records of the flattened walk. *)
Theorem tree_to_json_document {RT : Runtime} {PM : PenModel} tree w w' :
  tree_to_json tree w = (w', Ok tt) ->
  let anchor_pos := build_anchor_pos (SceneTree.root_text tree) in
  let '(x_min, x_max, y_min, y_max) :=
    hull default_box (marks anchor_pos (SceneTree.root tree)) in
  stream w'
  = stream w ++ map svg_fragment (tree_lines tree)
    ++ [json_dumps_doc
          (Doc.mk (Page.mk (xx (x_max - x_min + 1)) (yy (y_max - y_min + 1))
                           (xx x_min) (yy y_min))
                  (PageOrg.mk x_max y_max x_min y_min)
                  (tree_lines tree)
                  (concat (map (line_records anchor_pos)
                               (lines_of (SceneTree.root tree)))))]
  /\ x_min <= -702 /\ 702 <= x_max /\ y_min <= 0 /\ 1872 <= y_max.
Proof.
  intros H anchor_pos. unfold tree_to_json in H. fold anchor_pos in H.
  erewrite bind_ok in H by reflexivity. cbn beta in H. revert H.
  bind_cases w2 b e Eb; [|discriminate].
  pose proof (get_bounding_box_stream _ _ _ _ _ _ Eb) as S2.
  apply (get_bounding_box_hull anchor_pos) in Eb. cbn [stream] in S2.
  pose proof (hull_within default_box (marks anchor_pos (SceneTree.root tree)))
    as Hscreen.
  rewrite <- Eb in *. clear Eb.
  destruct b as [[[x_min x_max] y_min] y_max]. cbn beta iota.
  erewrite bind_ok by reflexivity. cbn beta.
  assert (Htext : exists w3,
    (match SceneTree.root_text tree with
     | Some root_text => draw_text root_text
     | None => mret []
     end) (logger DEBUG
       "x_min, x_max, y_min, y_max: %.1f, %.1f, %.1f, %.1f ; scalded %.1f, %.1f, %.1f, %.1f"
       [ArgInt x_min; ArgInt x_max; ArgInt y_min; ArgInt y_max;
        ArgScaled (xx x_min); ArgScaled (xx x_max);
        ArgScaled (yy y_min); ArgScaled (yy y_max)] w2).1
    = (w3, Ok (tree_lines tree))
    /\ stream w3 = stream w ++ map svg_fragment (tree_lines tree)).
  { unfold tree_lines. destruct (SceneTree.root_text tree) as [text|].
    - rewrite draw_text_spec. eexists. split; [reflexivity|].
      cbn [stream fst logger]. by rewrite S2.
    - eexists. split; [reflexivity|]. cbn. by rewrite S2, app_nil_r. }
  destruct Htext as (w3 & Htext & S3).
  rewrite (bind_ok _ _ _ _ _ Htext).
  destruct (draw_group (SceneTree.root tree) anchor_pos true w3)
    as [w4 [points|e]] eqn:Ed;
    [rewrite (bind_ok _ _ _ _ _ Ed)
    |rewrite (bind_raise _ _ _ _ _ Ed); discriminate].
  apply draw_group_flat_inv in Ed as (-> & S4 & _).
  intros Hw. injection Hw as <-.
  split; [|exact Hscreen].
  cbn [stream write fst]. rewrite S4, S3. by rewrite <- app_assoc.
Qed.

(** The conversion of the three-paragraph example, whose drawing root holds
    one line inside the screen. *)
Lemma tree_to_json_document_witness :
  stream (tree_to_json (RT := example_runtime) (PM := pens_every 1)
                       tree_three w0).1
  = stream w0 ++ map (svg_fragment (RT := example_runtime)) (tree_lines tree_three)
    ++ [json_dumps_doc (Runtime := example_runtime)
          (Doc.mk (Page.mk (xx (702 - -702 + 1)) (yy (1872 - 0 + 1))
                           (xx (-702)) (yy 0))
                  (PageOrg.mk 702 1872 (-702) 0)
                  (tree_lines tree_three)
                  (concat (map (line_records (PM := pens_every 1)
                                  (build_anchor_pos (Some text_three)))
                               (lines_of root_one_line))))]
  /\ -702 <= -702 /\ 702 <= 702 /\ 0 <= 0 /\ 1872 <= 1872.
Proof.
  refine (tree_to_json_document (RT := example_runtime) (PM := pens_every 1)
            tree_three w0 _ _).
  vm_compute. reflexivity.
Defined.

(** ** The template *)

(** X21: [read_template_svg] drops the first two and the last two lines of
    the template and joins the others with newlines; for a template of four
    lines or fewer the result is the empty string. *)
Theorem template_loses_two_lines_at_each_end :
  (forall a b mid c d,
      read_template_svg (a :: b :: mid ++ [c; d]) = join_lines mid)
  /\ (forall lines,
        (length lines <= 4)%nat -> read_template_svg lines = "").
Proof.
  split.
  - intros a b mid c d. unfold read_template_svg.
    cbn [drop length]. rewrite length_app. cbn [length].
    replace (S (S (length mid + 2)) - 2 - 2)%nat with (length mid) by lia.
    rewrite drop_0. by rewrite take_app_length.
  - intros lines Hlen. unfold read_template_svg.
    replace (length lines - 2 - 2)%nat with 0%nat by lia. reflexivity.
Qed.

(** A template of four lines has nothing between its ends. *)
Lemma template_loses_two_lines_at_each_end_witness :
  read_template_svg ["<?xml?>"; "<svg>"; "<g/>"; "</svg>"] = "".
Proof.
  apply (proj2 template_loses_two_lines_at_each_end). simpl. lia.
Defined.

(** ** The structure of the tree *)

Lemma tree_structure_group_keeps g : structure_keeps g.
Proof.
  induction g as [inf cs IH] using Group_nested_ind. unfold structure_keeps.
  rewrite groups_of_eq. unfold descendants.
  cbn [tree_structure_group structure_ids structure_items children leaves_of
       map info].
  induction cs as [|c cs IHcs]; [done|].
  apply Forall_cons in IH as [Hc IH]. destruct (IHcs IH) as [Hids Hitems].
  injection Hids as Hids.
  destruct c as [g|l|kind|]; cbn [truthy groups_of_children leaves_of_children
                                  structure_ids_list structure_items_list
                                  structure_ids structure_items app map].
  - destruct Hc as [Hgi Hgl]. rewrite Hgi, Hgl, Hids, Hitems.
    by rewrite !map_app.
  - by rewrite Hids, Hitems.
  - by rewrite Hids, Hitems.
  - by rewrite Hids, Hitems.
Qed.

(** X22: [tree_structure] loses no group and no item: the tuples of the
    structure of a group carry the node identifiers of the group and of all
    the groups nested in it, in the order of the walk, and the structure
    holds unchanged, in that order, all the children that are neither groups
    nor [None]; the [None] children are the only ones it drops. *)
Theorem tree_structure_keeps_the_tree (g : Group) :
  structure_ids (tree_structure (IChild (CGroup g)))
  = map (fun h => GroupInfo.node_id (info h)) (groups_of g)
  /\ structure_items (tree_structure (IChild (CGroup g)))
     = map IChild (leaves_of g)
  /\ Forall (fun c => c <> CNone) (leaves_of g).
Proof.
  destruct (tree_structure_group_keeps g) as [Hids Hitems].
  split; [exact Hids|]. split; [exact Hitems|]. clear Hids Hitems.
  induction g as [inf cs IH] using Group_nested_ind. cbn [leaves_of].
  induction cs as [|c cs IHcs]; [constructor|].
  apply Forall_cons in IH as [Hc IH]. specialize (IHcs IH).
  destruct c as [g|l|kind|]; cbn [leaves_of_children].
  - apply Forall_app. split; [exact Hc|done].
  - by constructor.
  - by constructor.
  - done.
Qed.

(** ** The flattened points and the bounding box *)

Section Inside.
Context {RT : Runtime} {PM : PenModel} (anchor_pos : gmap CrdtId Z).

Lemma offsets_agree_children parent cs :
  Forall (on_group (offsets_agree anchor_pos)) cs ->
  inner_unmoved anchor_pos (groups_of_children groups_of cs) ->
  (forall c, In (CGroup c) cs -> anchor_offset parent anchor_pos = (0, 0)) ->
  forall pl, In pl (lines_of_children lines_of parent cs) ->
    exists off,
      In (off, pl.2) (box_lines_children (box_lines anchor_pos) anchor_pos cs)
      /\ off.1 + (anchor_offset parent anchor_pos).1
         = (anchor_offset pl.1 anchor_pos).1
      /\ off.2 + (anchor_offset parent anchor_pos).2
         = (anchor_offset pl.1 anchor_pos).2.
Proof.
  induction cs as [|c cs IHcs]; intros IH Hin Hpar pl Hpl; [done|].
  apply Forall_cons in IH as [Hc IH].
  destruct c as [child|l|kind|].
  - cbn [groups_of_children] in Hin. unfold inner_unmoved in Hin.
    apply Forall_app in Hin as [Hchild Hrest].
    cbn [lines_of_children] in Hpl. apply in_app_iff in Hpl as [Hpl|Hpl].
    + destruct (Hc Hchild pl Hpl) as (off & Hoff & H1 & H2).
      rewrite (Hpar child (or_introl eq_refl)). cbn [fst snd].
      exists (off.1 + (anchor_offset child anchor_pos).1,
              off.2 + (anchor_offset child anchor_pos).2).
      cbn [fst snd]. split; [|lia].
      cbn [box_lines_children]. apply in_or_app. left.
      apply in_map_iff. exists (off, pl.2). by split.
    + destruct (IHcs IH Hrest (fun c Hc' => Hpar c (or_intror Hc')) pl Hpl)
        as (off & Hoff & H1 & H2).
      exists off. split; [|done].
      cbn [box_lines_children]. apply in_or_app. by right.
  - cbn [lines_of_children] in Hpl. destruct Hpl as [<-|Hpl].
    + exists (0, 0). cbn [fst snd]. split; [by left|lia].
    + destruct (IHcs IH Hin (fun c Hc' => Hpar c (or_intror Hc')) pl Hpl)
        as (off & Hoff & H1 & H2).
      exists off. split; [|done]. by right.
  - apply (IHcs IH Hin (fun c Hc' => Hpar c (or_intror Hc')) pl Hpl).
  - apply (IHcs IH Hin (fun c Hc' => Hpar c (or_intror Hc')) pl Hpl).
Qed.

Lemma has_group_child_In inf cs c :
  In (CGroup c) cs -> has_group_child (mkGroup inf cs) = true.
Proof.
  intros Hc. unfold has_group_child. cbn [children].
  apply existsb_exists. by exists (CGroup c).
Qed.

Lemma offsets_agree_all g : offsets_agree anchor_pos g.
Proof.
  induction g as [inf cs IH] using Group_nested_ind.
  intros Hin pl Hpl. rewrite groups_of_eq in Hin. unfold inner_unmoved in Hin.
  apply Forall_cons in Hin as [Hg Hin].
  apply (offsets_agree_children (mkGroup inf cs) cs IH Hin); [|exact Hpl].
  intros c Hc. apply Hg. by apply (has_group_child_In inf cs c).
Qed.

End Inside.

(** X23: when no group that contains another group is moved by an anchor
    (the root included; only the innermost groups are anchored), every point
    of the flattened walk lies inside the bounding box: the position of each
    record, its original moved by its anchor offset, is covered by the box
    that [get_bounding_box] returns for the same root and table. *)
Theorem flattened_points_inside_box {RT : Runtime} {PM : PenModel}
    (anchor_pos : gmap CrdtId Z) root box w1 w1' b w2 w2' items :
  get_bounding_box root anchor_pos box w1 = (w1', Ok b) ->
  draw_group root anchor_pos true w2 = (w2', Ok items) ->
  anchor_offset root anchor_pos = (0, 0) ->
  inner_unmoved anchor_pos (groups_of root) ->
  forall r, In r items ->
    covers b (PointRec.xorg r + PointRec.anchorx r)
             (PointRec.yorg r + PointRec.anchory r).
Proof.
  intros Hb Hd Hroot Hin r Hr.
  apply draw_group_flat_inv in Hd as (-> & _ & _).
  apply in_concat in Hr as (rs & Hrs & Hr).
  apply in_map_iff in Hrs as ([g l] & <- & Hgl).
  unfold line_records in Hr.
  destruct (anchor_offset g anchor_pos) as [ax ay] eqn:Hoff.
  apply list_elem_of_In, stroke_records_point in Hr
    as (p & Hp & -> & -> & -> & -> & _).
  destruct (offsets_agree_all anchor_pos root Hin (g, l) Hgl)
    as (off & Hbox & H1 & H2).
  cbn [fst snd] in H1, H2, Hbox.
  rewrite Hroot, Hoff in H1, H2. cbn [fst snd] in H1, H2.
  apply list_elem_of_In in Hp.
  pose proof (proj2 (get_bounding_box_covers anchor_pos root box w1 w1' b Hb)
                (off, l) p Hbox Hp) as Hcov.
  cbn [fst snd] in Hcov.
  replace ax with off.1 by lia. replace ay with off.2 by lia. exact Hcov.
Qed.

(** The point (2000, 2) of the layered example, moved to (2030, 102). *)
Lemma flattened_points_inside_box_witness :
  covers (-702, 2030, 0, 1872) (2000 + 30) (2 + 100).
Proof.
  refine (flattened_points_inside_box (RT := example_runtime)
            (PM := pens_every 1) special_anchors root_layered default_box
            w0 (get_bounding_box root_layered special_anchors default_box w0).1
            (-702, 2030, 0, 1872)
            w0 (draw_group (RT := example_runtime) (PM := pens_every 1)
                  root_layered special_anchors true w0).1
            [PointRec.mk (xx 2030) (yy 102) 2000 2 30 100 "black" 1%Q 1%Q]
            _ _ _ _
            (PointRec.mk (xx 2030) (yy 102) 2000 2 30 100 "black" 1%Q 1%Q) _).
  - vm_compute. reflexivity.
  - vm_compute. reflexivity.
  - reflexivity.
  - unfold inner_unmoved. cbn [root_layered groups_of groups_of_children app].
    repeat constructor;
      intros H; first [reflexivity | vm_compute in H; discriminate H].
  - left. reflexivity.
Defined.

(** ** The log of a conversion *)

Lemma get_anchor_records anchor_pos g w w' a :
  get_anchor g anchor_pos w = (w', Ok a) ->
  records w' = records w ++ anchor_log anchor_pos g.
Proof.
  unfold get_anchor, anchor_log.
  destruct (GroupInfo.anchor_id (info g)) as [aid|].
  - destruct (GroupInfo.anchor_origin_x (info g)) as [ox|]; [|discriminate].
    destruct (anchor_pos !! aid) as [y|]; intros H; by injection H as <- _.
  - intros H. injection H as <- _. by rewrite app_nil_r.
Qed.

Section Logs.
Context {RT : Runtime} {PM : PenModel} (anchor_pos : gmap CrdtId Z).

Lemma get_bounding_box_loop_logs inf cs :
  Forall (on_group (box_logs anchor_pos)) cs ->
  forall box w w' b,
    get_bounding_box (mkGroup inf cs) anchor_pos box w = (w', Ok b) ->
    records w'
    = records w ++ concat (map (anchor_log anchor_pos)
                               (groups_of_children groups_of cs)).
Proof.
  induction cs as [|c cs IHcs]; intros IH box w w' b Hb.
  - rewrite get_bounding_box_nil in Hb. injection Hb as <- <-.
    by rewrite app_nil_r.
  - apply Forall_cons in IH as [Hc IH]. specialize (IHcs IH).
    destruct box as [[[x_min x_max] y_min] y_max].
    destruct c as [child|l|kind|].
    + rewrite get_bounding_box_group in Hb. revert Hb.
      bind_cases w1 a e E1; [|discriminate].
      apply get_anchor_records in E1. destruct a as [ax ay].
      bind_cases w2 bc e E2; [|discriminate].
      apply Hc in E2. destruct bc as [[[? ?] ?] ?]. intros Hb.
      apply IHcs in Hb.
      cbn [groups_of_children]. rewrite groups_of_eq.
      rewrite map_app, concat_app. cbn [map concat].
      rewrite Hb, E2, E1. by rewrite <- !app_assoc.
    + rewrite get_bounding_box_line in Hb. by apply IHcs in Hb.
    + rewrite get_bounding_box_skip in Hb by done. by apply IHcs in Hb.
    + rewrite get_bounding_box_skip in Hb by done. by apply IHcs in Hb.
Qed.

Lemma get_bounding_box_logs g : box_logs anchor_pos g.
Proof.
  induction g as [inf cs IH] using Group_nested_ind.
  intros box w w' b Hb.
  exact (get_bounding_box_loop_logs inf cs IH box w w' b Hb).
Qed.

Lemma draw_group_flat_loop_logs ax ay cs :
  Forall (on_group (walk_logs anchor_pos)) cs ->
  forall acc w w' items,
    draw_group_flat_loop (fun child => draw_group child anchor_pos true)
                         ax ay cs acc w = (w', Ok items) ->
    records w'
    = records w ++ concat (map (anchor_log anchor_pos)
                               (groups_of_children groups_of cs)).
Proof.
  induction cs as [|c cs IHcs]; intros IH acc w w' items H.
  - injection H as <- _. by rewrite app_nil_r.
  - apply Forall_cons in IH as [Hc IH]. specialize (IHcs IH).
    destruct c as [child|l|kind|].
    + rewrite draw_group_flat_loop_group in H.
      unfold mbind, M_bind in H. cbn beta in H.
      destruct (draw_group child anchor_pos true w) as [w1 [r|e]] eqn:E1;
        [|discriminate].
      apply Hc in E1. apply IHcs in H.
      cbn [groups_of_children]. rewrite map_app, concat_app.
      rewrite H, E1. by rewrite <- app_assoc.
    + rewrite draw_group_flat_loop_line in H. revert H.
      pose proof (draw_stroke_cases l ax ay true w) as Hs.
      destruct (pen_ok l).
      * rewrite (bind_ok _ _ _ _ _ Hs). intros H. by apply IHcs in H.
      * rewrite (bind_raise _ _ _ _ _ Hs). discriminate.
    + by apply IHcs in H.
    + by apply IHcs in H.
Qed.

Lemma draw_group_flat_logs g : walk_logs anchor_pos g.
Proof.
  induction g as [inf cs IH] using Group_nested_ind. intros w w' items.
  rewrite draw_group_flat_eq.
  bind_cases w1 a e E1; [|discriminate]. destruct a as [ax ay].
  apply get_anchor_records in E1. intros H.
  apply (draw_group_flat_loop_logs ax ay cs IH) in H.
  rewrite groups_of_eq. unfold descendants. cbn [children map concat].
  rewrite H, E1. by rewrite <- app_assoc.
Qed.

End Logs.

(** X24: when [tree_to_json] returns, its log is determined by the tree: a
    debug record with the anchor table, the records of [get_anchor] for
    every group below the root, a debug record with the box, and the records
    of [get_anchor] for the root and again for every group below it; so the
    warning for an unknown anchor of a group below the root is logged
    twice. *)
Theorem conversion_logs_anchors_twice {RT : Runtime} {PM : PenModel}
    tree w w' :
  tree_to_json tree w = (w', Ok tt) ->
  let anchor_pos := build_anchor_pos (SceneTree.root_text tree) in
  let '(x_min, x_max, y_min, y_max) :=
    hull default_box (marks anchor_pos (SceneTree.root tree)) in
  records w'
  = records w
    ++ [mkLogRecord DEBUG "anchor_pos: %s" [ArgTable anchor_pos]]
    ++ concat (map (anchor_log anchor_pos) (descendants (SceneTree.root tree)))
    ++ [mkLogRecord DEBUG
          "x_min, x_max, y_min, y_max: %.1f, %.1f, %.1f, %.1f ; scalded %.1f, %.1f, %.1f, %.1f"
          [ArgInt x_min; ArgInt x_max; ArgInt y_min; ArgInt y_max;
           ArgScaled (xx x_min); ArgScaled (xx x_max);
           ArgScaled (yy y_min); ArgScaled (yy y_max)]]
    ++ anchor_log anchor_pos (SceneTree.root tree)
    ++ concat (map (anchor_log anchor_pos) (descendants (SceneTree.root tree))).
Proof.
  intros H anchor_pos. unfold tree_to_json in H. fold anchor_pos in H.
  erewrite bind_ok in H by reflexivity. cbn beta in H. revert H.
  bind_cases w2 b e Eb; [|discriminate].
  pose proof (get_bounding_box_logs anchor_pos _ _ _ _ _ Eb) as R2.
  apply (get_bounding_box_hull anchor_pos) in Eb. cbn [records] in R2.
  rewrite <- Eb. clear Eb.
  destruct b as [[[x_min x_max] y_min] y_max]. cbn beta iota.
  erewrite bind_ok by reflexivity. cbn beta.
  assert (Htext : exists w3 lines,
    (match SceneTree.root_text tree with
     | Some root_text => draw_text root_text
     | None => mret []
     end) (logger DEBUG
       "x_min, x_max, y_min, y_max: %.1f, %.1f, %.1f, %.1f ; scalded %.1f, %.1f, %.1f, %.1f"
       [ArgInt x_min; ArgInt x_max; ArgInt y_min; ArgInt y_max;
        ArgScaled (xx x_min); ArgScaled (xx x_max);
        ArgScaled (yy y_min); ArgScaled (yy y_max)] w2).1
    = (w3, Ok lines)
    /\ records w3
       = records w2
         ++ [mkLogRecord DEBUG
               "x_min, x_max, y_min, y_max: %.1f, %.1f, %.1f, %.1f ; scalded %.1f, %.1f, %.1f, %.1f"
               [ArgInt x_min; ArgInt x_max; ArgInt y_min; ArgInt y_max;
                ArgScaled (xx x_min); ArgScaled (xx x_max);
                ArgScaled (yy y_min); ArgScaled (yy y_max)]]).
  { destruct (SceneTree.root_text tree) as [text|].
    - rewrite draw_text_spec. eexists _, _. split; reflexivity.
    - eexists _, _. split; reflexivity. }
  destruct Htext as (w3 & lines & Htext & R3).
  rewrite (bind_ok _ _ _ _ _ Htext).
  destruct (draw_group (SceneTree.root tree) anchor_pos true w3)
    as [w4 [points|e]] eqn:Ed;
    [rewrite (bind_ok _ _ _ _ _ Ed)
    |rewrite (bind_raise _ _ _ _ _ Ed); discriminate].
  apply draw_group_flat_logs in Ed. rewrite groups_of_eq in Ed.
  cbn [map concat] in Ed.
  intros Hw. injection Hw as <-. cbn [records write fst].
  rewrite Ed, R3, R2. by rewrite <- !app_assoc.
Qed.

(** The conversion of the tree whose group is anchored at an unknown
    identifier: the warning comes twice. *)
Lemma conversion_logs_anchors_twice_witness :
  records (tree_to_json (RT := example_runtime) (PM := pens_every 1)
                        tree_unknown_anchor w0).1
  = records w0
    ++ [mkLogRecord DEBUG "anchor_pos: %s" [ArgTable (build_anchor_pos None)]]
    ++ [mkLogRecord WARNING "Group anchor: %s is unknown!" [ArgId (7, 7)]]
    ++ [mkLogRecord DEBUG
          "x_min, x_max, y_min, y_max: %.1f, %.1f, %.1f, %.1f ; scalded %.1f, %.1f, %.1f, %.1f"
          [ArgInt (-702); ArgInt 702; ArgInt 0; ArgInt 1872;
           ArgScaled (xx (-702)); ArgScaled (xx 702);
           ArgScaled (yy 0); ArgScaled (yy 1872)]]
    ++ []
    ++ [mkLogRecord WARNING "Group anchor: %s is unknown!" [ArgId (7, 7)]].
Proof.
  refine (conversion_logs_anchors_twice (RT := example_runtime)
            (PM := pens_every 1) tree_unknown_anchor w0 _ _).
  vm_compute. reflexivity.
Defined.
